(** * binutils: little-endian [BinReader] / [BinWriter] over [node:buffer]

    A shallow embedding of [src/little.ts].  The two classes are thin
    wrappers around the [Buffer] methods of [node:buffer]; those methods
    are embedded in [Module NodeBuffer] following their implementation in
    the runtime ([lib/internal/buffer.js] and [lib/buffer.js]), including
    the range check on written values and the bounds check on offsets.

    Numbers.  A JavaScript number that flows through an integer method is
    modelled as an integer of [Z] (integer-valued numbers; offsets and
    lengths are integers as well).  Sums of such numbers are taken in
    [Z], which is the sum of doubles as long as the terms and the sum are
    safe integers; statements about a position moved by a length that need
    not keep it inside the buffer carry that bound.  [Module Numeric] gives the integer
    writes on an arbitrary number.  A number that flows through a floating
    point method is modelled as a [spec_float] of the binary64 format,
    which, like the language itself, has one NaN. *)

From Stdlib Require Import ZArith List Lia Bool.
From Stdlib Require Import Strings.Byte.
From Stdlib Require Import Floats.SpecFloat.
Import ListNotations.
Open Scope Z_scope.

(** ** Bytes and typed-array element conversion *)

Definition Buffer := list byte.

Definition byte_to_Z (b : byte) : Z := Z.of_N (Byte.to_N b).

(** Storing a number in a [Uint8Array] slot keeps it modulo 2^8. *)
Definition ToUint8 (z : Z) : byte :=
  match Byte.of_N (Z.to_N (z mod 256)) with
  | Some b => b
  | None => x00
  end.

(** ** 32-bit integer operators of the language *)

Definition ToUint32 (z : Z) : Z := z mod 2 ^ 32.
Definition ToInt32 (z : Z) : Z := (z + 2 ^ 31) mod 2 ^ 32 - 2 ^ 31.

(** [a | b], [a & b], [a << n], [a >>> n] *)
Definition js_or (a b : Z) : Z := Z.lor (ToInt32 a) (ToInt32 b).
Definition js_and (a b : Z) : Z := Z.land (ToInt32 a) (ToInt32 b).
Definition js_shl (a n : Z) : Z := ToInt32 (Z.shiftl (ToInt32 a) (n mod 32)).
Definition js_ushr (a n : Z) : Z := Z.shiftr (ToUint32 a) (n mod 32).

(** ** Errors thrown by [node:buffer] *)

Inductive arg_name := Offset | Value.

Inductive error :=
| ERR_OUT_OF_RANGE (name : arg_name)
| ERR_BUFFER_OUT_OF_BOUNDS.

(** The condition the specification calls [OutOfBounds]: a [RangeError]
    raised because the offset does not leave room for the access. *)
Definition OutOfBounds (e : error) : Prop :=
  e = ERR_OUT_OF_RANGE Offset \/ e = ERR_BUFFER_OUT_OF_BOUNDS.

(** ** IEEE-754 interchange formats *)

Module IEEE754.

Section Format.
(** [prec] and [emax] as in [SpecFloat]; [ebits] is the width of the
    exponent field, so that a datum has [1 + ebits + (prec - 1)] bits. *)
Variables prec emax ebits : Z.

Definition mbits : Z := prec - 1.

Definition join (s : bool) (e m : Z) : Z :=
  (if s then 2 ^ (ebits + mbits) else 0) + e * 2 ^ mbits + m.

(** The bits of a datum; NaN is stored as the quiet NaN with a clear sign
    and an otherwise empty payload. *)
Definition bits_of_float (x : spec_float) : Z :=
  match x with
  | S754_zero s => join s 0 0
  | S754_infinity s => join s (2 ^ ebits - 1) 0
  | S754_nan => join false (2 ^ ebits - 1) (2 ^ (mbits - 1))
  | S754_finite s m e =>
      if Zpos m <? 2 ^ mbits then join s 0 (Zpos m)
      else join s (e - emin prec emax + 1) (Zpos m - 2 ^ mbits)
  end.

Definition float_of_bits (z : Z) : spec_float :=
  let s := 2 ^ (ebits + mbits) <=? z in
  let e := (z / 2 ^ mbits) mod 2 ^ ebits in
  let m := z mod 2 ^ mbits in
  if e =? 0 then
    match m with
    | Zpos p => S754_finite s p (emin prec emax)
    | _ => S754_zero s
    end
  else if e =? 2 ^ ebits - 1 then
    if m =? 0 then S754_infinity s else S754_nan
  else
    match m + 2 ^ mbits with
    | Zpos p => S754_finite s p (e + emin prec emax - 1)
    | _ => S754_nan
    end.

(** Conversion of a number of any binary format to this one, rounding
    to nearest, ties to even, overflowing to infinity. *)
Definition convert (x : spec_float) : spec_float :=
  match x with
  | S754_finite s m e => binary_round prec emax s m e
  | _ => x
  end.
End Format.

Definition valid_double : spec_float -> bool := valid_binary 53 1024.
Definition valid_single : spec_float -> bool := valid_binary 24 128.

Definition bits_of_double : spec_float -> Z := bits_of_float 53 1024 11.
Definition double_of_bits : Z -> spec_float := float_of_bits 53 1024 11.
Definition bits_of_single : spec_float -> Z := bits_of_float 24 128 8.
Definition single_of_bits : Z -> spec_float := float_of_bits 24 128 8.

(** [Float32Array] slot store, and load back into a number. *)
Definition to_single : spec_float -> spec_float := convert 24 128.
Definition to_double : spec_float -> spec_float := convert 53 1024.

End IEEE754.

(** ** [node:buffer] *)

Module NodeBuffer.

Definition length (b : Buffer) : Z := Z.of_nat (List.length b).

(** [Buffer.alloc(size)]: [size] zero bytes. *)
Definition alloc (size : nat) : Buffer := repeat x00 size.

(** [Buffer.concat(list)] *)
Definition concat (l : list Buffer) : Buffer := List.concat l.

(** [buf[i]]: [None] stands for [undefined]. *)
Definition get (b : Buffer) (i : Z) : option Z :=
  if i <? 0 then None
  else option_map byte_to_Z (nth_error b (Z.to_nat i)).

(** [buf[i]] where the caller has established that the slot exists. *)
Definition at_ (b : Buffer) (i : Z) : Z :=
  match get b i with Some v => v | None => 0 end.

Fixpoint set_nth (b : Buffer) (n : nat) (v : byte) : Buffer :=
  match b, n with
  | [], _ => []
  | _ :: tl, O => v :: tl
  | x :: tl, S k => x :: set_nth tl k v
  end.

(** [buf[i] = v]: a store outside the array is ignored. *)
Definition set (b : Buffer) (i : Z) (v : Z) : Buffer :=
  if i <? 0 then b else set_nth b (Z.to_nat i) (ToUint8 v).

Definition boundsError (value length : Z) : error :=
  if length <? 0 then ERR_BUFFER_OUT_OF_BOUNDS
  else ERR_OUT_OF_RANGE Offset.

(** *** Reads *)

Definition readUInt8 (this : Buffer) (offset : Z) : error + Z :=
  match get this offset with
  | None => inl (boundsError offset (length this - 1))
  | Some val => inr val
  end.

Definition readUInt16LE (this : Buffer) (offset : Z) : error + Z :=
  match get this offset, get this (offset + 1) with
  | Some first, Some last => inr (first + last * 2 ^ 8)
  | _, _ => inl (boundsError offset (length this - 2))
  end.

Definition readUInt32LE (this : Buffer) (offset : Z) : error + Z :=
  match get this offset, get this (offset + 3) with
  | Some first, Some last =>
      inr (first
           + at_ this (offset + 1) * 2 ^ 8
           + at_ this (offset + 2) * 2 ^ 16
           + last * 2 ^ 24)
  | _, _ => inl (boundsError offset (length this - 4))
  end.

Definition readInt8 (this : Buffer) (offset : Z) : error + Z :=
  match get this offset with
  | None => inl (boundsError offset (length this - 1))
  | Some val => inr (js_or val (js_and val (2 ^ 7) * 0x1fffffe))
  end.

Definition readInt16LE (this : Buffer) (offset : Z) : error + Z :=
  match get this offset, get this (offset + 1) with
  | Some first, Some last =>
      let val := first + last * 2 ^ 8 in
      inr (js_or val (js_and val (2 ^ 15) * 0x1fffe))
  | _, _ => inl (boundsError offset (length this - 2))
  end.

Definition readInt32LE (this : Buffer) (offset : Z) : error + Z :=
  match get this offset, get this (offset + 3) with
  | Some first, Some last =>
      inr (first
           + at_ this (offset + 1) * 2 ^ 8
           + at_ this (offset + 2) * 2 ^ 16
           + js_shl last 24)
  | _, _ => inl (boundsError offset (length this - 4))
  end.

(** The bytes [offset .. offset + n - 1] as one little-endian integer:
    what the aliased [Uint8Array] of the float scratch array holds. *)
Fixpoint le_bits (this : Buffer) (offset : Z) (n : nat) : Z :=
  match n with
  | O => 0
  | S k => at_ this offset + 2 ^ 8 * le_bits this (offset + 1) k
  end.

Definition readFloatLE (this : Buffer) (offset : Z) : error + spec_float :=
  match get this offset, get this (offset + 3) with
  | Some _, Some _ =>
      inr (IEEE754.to_double (IEEE754.single_of_bits (le_bits this offset 4)))
  | _, _ => inl (boundsError offset (length this - 4))
  end.

Definition readDoubleLE (this : Buffer) (offset : Z) : error + spec_float :=
  match get this offset, get this (offset + 7) with
  | Some _, Some _ => inr (IEEE754.double_of_bits (le_bits this offset 8))
  | _, _ => inl (boundsError offset (length this - 8))
  end.

(** *** [subarray] *)

Definition adjustOffset (offset length : Z) : Z :=
  if offset =? 0 then 0
  else if offset <? 0 then
    let offset := offset + length in
    if 0 <? offset then offset else 0
  else if offset <? length then offset
  else length.

Definition subarray (this : Buffer) (start end_ : Z) : Buffer :=
  let srcLength := length this in
  let start := adjustOffset start srcLength in
  let end_ := adjustOffset end_ srcLength in
  let newLength := if start <? end_ then end_ - start else 0 in
  firstn (Z.to_nat newLength) (skipn (Z.to_nat start) this).

(** *** Writes: each returns the buffer after the stores *)

Definition checkBounds (buf : Buffer) (offset byteLength : Z) : option error :=
  match get buf offset, get buf (offset + byteLength) with
  | Some _, Some _ => None
  | _, _ => Some (boundsError offset (length buf - (byteLength + 1)))
  end.

Definition checkInt (value min max : Z) (buf : Buffer) (offset byteLength : Z)
  : option error :=
  if (max <? value) || (value <? min) then Some (ERR_OUT_OF_RANGE Value)
  else checkBounds buf offset byteLength.

Definition writeU_Int8 (buf : Buffer) (value offset min max : Z)
  : error + Buffer :=
  if (max <? value) || (value <? min) then inl (ERR_OUT_OF_RANGE Value)
  else match get buf offset with
       | None => inl (boundsError offset (length buf - 1))
       | Some _ => inr (set buf offset value)
       end.

Definition writeU_Int16LE (buf : Buffer) (value offset min max : Z)
  : error + Buffer :=
  match checkInt value min max buf offset 1 with
  | Some e => inl e
  | None =>
      let buf := set buf offset value in
      let buf := set buf (offset + 1) (js_ushr value 8) in
      inr buf
  end.

Definition writeU_Int32LE (buf : Buffer) (value offset min max : Z)
  : error + Buffer :=
  match checkInt value min max buf offset 3 with
  | Some e => inl e
  | None =>
      let buf := set buf offset value in
      let value := js_ushr value 8 in
      let buf := set buf (offset + 1) value in
      let value := js_ushr value 8 in
      let buf := set buf (offset + 2) value in
      let value := js_ushr value 8 in
      let buf := set buf (offset + 3) value in
      inr buf
  end.

Definition writeUInt8 (this : Buffer) (value offset : Z) :=
  writeU_Int8 this value offset 0 0xff.
Definition writeInt8 (this : Buffer) (value offset : Z) :=
  writeU_Int8 this value offset (- 0x80) 0x7f.
Definition writeUInt16LE (this : Buffer) (value offset : Z) :=
  writeU_Int16LE this value offset 0 0xffff.
Definition writeInt16LE (this : Buffer) (value offset : Z) :=
  writeU_Int16LE this value offset (- 0x8000) 0x7fff.
Definition writeUInt32LE (this : Buffer) (value offset : Z) :=
  writeU_Int32LE this value offset 0 0xffffffff.
Definition writeInt32LE (this : Buffer) (value offset : Z) :=
  writeU_Int32LE this value offset (- 0x80000000) 0x7fffffff.

(** Copy the [n] low bytes of [bits] to [offset ..], least significant
    first. *)
Fixpoint set_le (buf : Buffer) (offset : Z) (n : nat) (bits : Z) : Buffer :=
  match n with
  | O => buf
  | S k => set_le (set buf offset bits) (offset + 1) k (bits / 2 ^ 8)
  end.

Definition writeFloatLE (this : Buffer) (val : spec_float) (offset : Z)
  : error + Buffer :=
  match checkBounds this offset 3 with
  | Some e => inl e
  | None =>
      inr (set_le this offset 4 (IEEE754.bits_of_single (IEEE754.to_single val)))
  end.

Definition writeDoubleLE (this : Buffer) (val : spec_float) (offset : Z)
  : error + Buffer :=
  match checkBounds this offset 7 with
  | Some e => inl e
  | None => inr (set_le this offset 8 (IEEE754.bits_of_double val))
  end.

End NodeBuffer.

(** ** Methods as state transformers that may throw

    A method runs on the object's state and either throws or returns; the
    state it leaves behind is observable in both cases. *)

Definition M (S A : Type) : Type := S -> (error + A) * S.

Definition ret {S A} (a : A) : M S A := fun s => (inr a, s).

Definition bind {S A B} (m : M S A) (k : A -> M S B) : M S B :=
  fun s =>
    match m s with
    | (inl e, s') => (inl e, s')
    | (inr a, s') => k a s'
    end.

(** Evaluate an expression over the current state that may throw. *)
Definition eval {S A} (f : S -> error + A) : M S A := fun s => (f s, s).

(** Assign to the state. *)
Definition assign {S} (f : S -> S) : M S unit := fun s => (inr tt, f s).

Declare Scope method_scope.
Delimit Scope method_scope with method.
Notation "x <- m ;; k" := (bind m (fun x => k))
  (at level 61, m at next level, right associativity) : method_scope.
Notation "m ;; k" := (bind m (fun _ => k))
  (at level 61, right associativity) : method_scope.

(** ** [class BinReader] *)

Module BinReader.

Record t := new_at { buffer : Buffer; position : Z }.

(** [new BinReader(buffer)] *)
Definition new (buffer : Buffer) : t := {| buffer := buffer; position := 0 |}.

(** [this.position += n], for an integer position and an integer [n]
    whose sum is a safe integer: there the addition of doubles is the
    addition of [Z] (see [exact_advance]). *)
Definition advance (n : Z) : M t unit :=
  assign (fun this => {| buffer := buffer this; position := position this + n |}).

Local Open Scope method_scope.

Definition readUInt8 : M t Z :=
  value <- eval (fun this => NodeBuffer.readUInt8 (buffer this) (position this)) ;;
  advance 1 ;;
  ret value.

Definition readUInt16 : M t Z :=
  value <- eval (fun this => NodeBuffer.readUInt16LE (buffer this) (position this)) ;;
  advance 2 ;;
  ret value.

Definition readUInt32 : M t Z :=
  value <- eval (fun this => NodeBuffer.readUInt32LE (buffer this) (position this)) ;;
  advance 4 ;;
  ret value.

Definition readInt8 : M t Z :=
  value <- eval (fun this => NodeBuffer.readInt8 (buffer this) (position this)) ;;
  advance 1 ;;
  ret value.

Definition readInt16 : M t Z :=
  value <- eval (fun this => NodeBuffer.readInt16LE (buffer this) (position this)) ;;
  advance 2 ;;
  ret value.

Definition readInt32 : M t Z :=
  value <- eval (fun this => NodeBuffer.readInt32LE (buffer this) (position this)) ;;
  advance 4 ;;
  ret value.

Definition readFloat32 : M t spec_float :=
  value <- eval (fun this => NodeBuffer.readFloatLE (buffer this) (position this)) ;;
  advance 4 ;;
  ret value.

Definition readDouble : M t spec_float :=
  value <- eval (fun this => NodeBuffer.readDoubleLE (buffer this) (position this)) ;;
  advance 8 ;;
  ret value.

Definition readBytes (length : Z) : M t Buffer :=
  value <- eval (fun this =>
             inr (NodeBuffer.subarray (buffer this) (position this)
                                      (position this + length))) ;;
  advance length ;;
  ret value.

End BinReader.

(** ** [class BinWriter] *)

Module BinWriter.

Record t := { buffer : Buffer }.

(** [new BinWriter()] *)
Definition new : t := {| buffer := NodeBuffer.alloc 0 |}.

(** [this.buffer = Buffer.concat([this.buffer, chunk])] *)
Definition append (chunk : Buffer) : M t unit :=
  assign (fun this => {| buffer := NodeBuffer.concat [buffer this; chunk] |}).

Local Open Scope method_scope.

Definition writeUInt8 (value : Z) : M t unit :=
  chunk <- eval (fun _ => NodeBuffer.writeUInt8 (NodeBuffer.alloc 1) value 0) ;;
  append chunk.

Definition writeUInt16 (value : Z) : M t unit :=
  chunk <- eval (fun _ => NodeBuffer.writeUInt16LE (NodeBuffer.alloc 2) value 0) ;;
  append chunk.

Definition writeUInt32 (value : Z) : M t unit :=
  chunk <- eval (fun _ => NodeBuffer.writeUInt32LE (NodeBuffer.alloc 4) value 0) ;;
  append chunk.

Definition writeInt8 (value : Z) : M t unit :=
  chunk <- eval (fun _ => NodeBuffer.writeInt8 (NodeBuffer.alloc 1) value 0) ;;
  append chunk.

Definition writeInt16 (value : Z) : M t unit :=
  chunk <- eval (fun _ => NodeBuffer.writeInt16LE (NodeBuffer.alloc 2) value 0) ;;
  append chunk.

Definition writeInt32 (value : Z) : M t unit :=
  chunk <- eval (fun _ => NodeBuffer.writeInt32LE (NodeBuffer.alloc 4) value 0) ;;
  append chunk.

Definition writeFloat32 (value : spec_float) : M t unit :=
  chunk <- eval (fun _ => NodeBuffer.writeFloatLE (NodeBuffer.alloc 4) value 0) ;;
  append chunk.

Definition writeDouble (value : spec_float) : M t unit :=
  chunk <- eval (fun _ => NodeBuffer.writeDoubleLE (NodeBuffer.alloc 8) value 0) ;;
  append chunk.

Definition writeBytes (value : Buffer) : M t unit :=
  append value.

End BinWriter.

(** ** Sequences of method calls *)

Inductive value :=
| VInt (z : Z)
| VFloat (f : spec_float)
| VBytes (b : Buffer).

Definition returning {S A} (inj : A -> value) (m : M S A) : M S value :=
  bind m (fun a => ret (inj a)).

Inductive read_op :=
| ReadUInt8 | ReadInt8 | ReadUInt16 | ReadInt16 | ReadUInt32 | ReadInt32
| ReadFloat32 | ReadDouble
| ReadBytes (length : Z).

Definition fixed_width (op : read_op) : bool :=
  match op with ReadBytes _ => false | _ => true end.

(** Byte width of the value an operation consumes or produces. *)
Definition read_width (op : read_op) : Z :=
  match op with
  | ReadUInt8 | ReadInt8 => 1
  | ReadUInt16 | ReadInt16 => 2
  | ReadUInt32 | ReadInt32 | ReadFloat32 => 4
  | ReadDouble => 8
  | ReadBytes length => length
  end.

Definition do_read (op : read_op) : M BinReader.t value :=
  match op with
  | ReadUInt8 => returning VInt BinReader.readUInt8
  | ReadInt8 => returning VInt BinReader.readInt8
  | ReadUInt16 => returning VInt BinReader.readUInt16
  | ReadInt16 => returning VInt BinReader.readInt16
  | ReadUInt32 => returning VInt BinReader.readUInt32
  | ReadInt32 => returning VInt BinReader.readInt32
  | ReadFloat32 => returning VFloat BinReader.readFloat32
  | ReadDouble => returning VFloat BinReader.readDouble
  | ReadBytes length => returning VBytes (BinReader.readBytes length)
  end.

Inductive write_op :=
| WriteUInt8 (v : Z) | WriteInt8 (v : Z)
| WriteUInt16 (v : Z) | WriteInt16 (v : Z)
| WriteUInt32 (v : Z) | WriteInt32 (v : Z)
| WriteFloat32 (v : spec_float) | WriteDouble (v : spec_float)
| WriteBytes (v : Buffer).

Definition write_width (op : write_op) : Z :=
  match op with
  | WriteUInt8 _ | WriteInt8 _ => 1
  | WriteUInt16 _ | WriteInt16 _ => 2
  | WriteUInt32 _ | WriteInt32 _ | WriteFloat32 _ => 4
  | WriteDouble _ => 8
  | WriteBytes v => NodeBuffer.length v
  end.

Definition do_write (op : write_op) : M BinWriter.t unit :=
  match op with
  | WriteUInt8 v => BinWriter.writeUInt8 v
  | WriteInt8 v => BinWriter.writeInt8 v
  | WriteUInt16 v => BinWriter.writeUInt16 v
  | WriteInt16 v => BinWriter.writeInt16 v
  | WriteUInt32 v => BinWriter.writeUInt32 v
  | WriteInt32 v => BinWriter.writeInt32 v
  | WriteFloat32 v => BinWriter.writeFloat32 v
  | WriteDouble v => BinWriter.writeDouble v
  | WriteBytes v => BinWriter.writeBytes v
  end.

(** Run the calls in order as long as they return, giving the state after
    the last one; [None] as soon as one throws. *)
Fixpoint run {S A} (step : A -> M S unit) (ops : list A) (s : S) : option S :=
  match ops with
  | [] => Some s
  | op :: rest =>
      match step op s with
      | (inr _, s') => run step rest s'
      | (inl _, _) => None
      end
  end.

(** The reader [r] with its position moved by [n]. *)
Definition moved (r : BinReader.t) (n : Z) : BinReader.t :=
  {| BinReader.buffer := BinReader.buffer r;
     BinReader.position := BinReader.position r + n |}.

(** One call of a reader method: the state it found, what it returned or
    threw, and the state it left. *)
Record call := {
  c_op : read_op;
  c_before : BinReader.t;
  c_result : error + value;
  c_after : BinReader.t
}.

(** The calls made by a caller that goes on after a thrown error. *)
Fixpoint trace (ops : list read_op) (r : BinReader.t) : list call :=
  match ops with
  | [] => []
  | op :: rest =>
      let '(res, r') := do_read op r in
      {| c_op := op; c_before := r; c_result := res; c_after := r' |}
        :: trace rest r'
  end.

Definition returned (c : call) : Prop :=
  match c_result c with inr _ => True | inl _ => False end.

Definition threw_OutOfBounds (c : call) : Prop :=
  match c_result c with inr _ => False | inl e => OutOfBounds e end.

(** [0 <= position <= buffer.length] *)
Definition invariant (r : BinReader.t) : Prop :=
  0 <= BinReader.position r <= NodeBuffer.length (BinReader.buffer r).

(** The length passed to [readBytes] is non-negative. *)
Definition length_nonneg_op (op : read_op) : bool :=
  match op with ReadBytes n => 0 <=? n | _ => true end.

(** The length passed to [readBytes] is non-negative and no more than
    what is left of the buffer. *)
Definition length_fits (op : read_op) (r : BinReader.t) : bool :=
  match op with
  | ReadBytes n =>
      (0 <=? n)
      && (BinReader.position r + n <=? NodeBuffer.length (BinReader.buffer r))
  | _ => true
  end.

Fixpoint lengths_fit (ops : list read_op) (r : BinReader.t) : bool :=
  match ops with
  | [] => true
  | op :: rest => length_fits op r && lengths_fit rest (snd (do_read op r))
  end.

(** ** Integer types *)

Inductive int_kind := UInt8 | Int8 | UInt16 | Int16 | UInt32 | Int32.

Definition int_bytes (k : int_kind) : nat :=
  match k with
  | UInt8 | Int8 => 1
  | UInt16 | Int16 => 2
  | UInt32 | Int32 => 4
  end%nat.

Definition int_min (k : int_kind) : Z :=
  match k with
  | UInt8 | UInt16 | UInt32 => 0
  | Int8 => - 2 ^ 7
  | Int16 => - 2 ^ 15
  | Int32 => - 2 ^ 31
  end.

Definition int_max (k : int_kind) : Z :=
  match k with
  | UInt8 => 2 ^ 8 - 1
  | UInt16 => 2 ^ 16 - 1
  | UInt32 => 2 ^ 32 - 1
  | Int8 => 2 ^ 7 - 1
  | Int16 => 2 ^ 15 - 1
  | Int32 => 2 ^ 31 - 1
  end.

Definition in_range (k : int_kind) (v : Z) : bool :=
  (int_min k <=? v) && (v <=? int_max k).

Definition write_int (k : int_kind) (v : Z) : write_op :=
  match k with
  | UInt8 => WriteUInt8 v
  | Int8 => WriteInt8 v
  | UInt16 => WriteUInt16 v
  | Int16 => WriteInt16 v
  | UInt32 => WriteUInt32 v
  | Int32 => WriteInt32 v
  end.

Definition read_int (k : int_kind) : read_op :=
  match k with
  | UInt8 => ReadUInt8
  | Int8 => ReadInt8
  | UInt16 => ReadUInt16
  | Int16 => ReadInt16
  | UInt32 => ReadUInt32
  | Int32 => ReadInt32
  end.

(** The [n] low-order bytes of [v] in two's complement, least significant
    byte first. *)
Fixpoint le_bytes (n : nat) (v : Z) : Buffer :=
  match n with
  | O => []
  | S k => ToUint8 v :: le_bytes k (v / 2 ^ 8)
  end.

(** An integer write as the specification words it: it never fails and
    appends the low-order bytes of any value. *)
Definition write_truncating (k : int_kind) (v : Z) : M BinWriter.t unit :=
  BinWriter.append (le_bytes (int_bytes k) v).

(** Sum of the byte widths of the values written by [ops]. *)
Definition total_width (ops : list write_op) : Z :=
  fold_right Z.add 0 (map write_width ops).

(** ** Values of the supported types *)

Inductive typed :=
| TInt (k : int_kind) (v : Z)
| TFloat32 (v : spec_float)
| TDouble (v : spec_float)
| TBytes (v : Buffer).

(** A float32 value is a number that a valid binary32 datum converts to. *)
Definition representable (x : typed) : Prop :=
  match x with
  | TInt k v => in_range k v = true
  | TFloat32 v =>
      exists f, IEEE754.valid_single f = true /\ v = IEEE754.to_double f
  | TDouble v => IEEE754.valid_double v = true
  | TBytes _ => True
  end.

Definition write_of (x : typed) : write_op :=
  match x with
  | TInt k v => write_int k v
  | TFloat32 v => WriteFloat32 v
  | TDouble v => WriteDouble v
  | TBytes v => WriteBytes v
  end.

Definition read_of (x : typed) : read_op :=
  match x with
  | TInt k _ => read_int k
  | TFloat32 _ => ReadFloat32
  | TDouble _ => ReadDouble
  | TBytes v => ReadBytes (NodeBuffer.length v)
  end.

Definition value_of (x : typed) : value :=
  match x with
  | TInt _ v => VInt v
  | TFloat32 v | TDouble v => VFloat v
  | TBytes v => VBytes v
  end.

(** ** [readBytes] as the specification words it *)

(** The bytes of [b] from index [lo] up to, not including, [hi]. *)
Definition span (b : Buffer) (lo hi : Z) : Buffer :=
  firstn (Z.to_nat (hi - lo)) (skipn (Z.to_nat lo) b).

(** An endpoint clamped to the bounds of a buffer of [len] bytes. *)
Definition clamp (len x : Z) : Z := Z.max 0 (Z.min x len).

(** An endpoint as [subarray] takes it: a negative one counts back from
    the end of the buffer, and the result is clamped. *)
Definition from_end (len x : Z) : Z := clamp len (if x <? 0 then len + x else x).

Definition readBytes_clamped (length : Z) : M BinReader.t Buffer :=
  fun this =>
    let len := NodeBuffer.length (BinReader.buffer this) in
    let pos := BinReader.position this in
    (inr (span (BinReader.buffer this) (clamp len pos) (clamp len (pos + length))),
     {| BinReader.buffer := BinReader.buffer this;
        BinReader.position := pos + length |}).

(** The number that the literal [123.456] denotes. *)
Definition number_123_456 : spec_float :=
  S754_finite false 0x1EDD2F1A9FBE77 (-46).

(** ** Decoding and encoding, stated on the bytes *)

Definition is_signed (k : int_kind) : bool :=
  match k with
  | Int8 | Int16 | Int32 => true
  | UInt8 | UInt16 | UInt32 => false
  end.

(** The integer of kind [k] whose bits, read as an unsigned number, are
    [u]: [u] itself, or [u] less [2 ^ width] when [k] is signed and the
    top bit of [u] is set. *)
Definition int_of_bits (k : int_kind) (u : Z) : Z :=
  let half := 2 ^ (8 * Z.of_nat (int_bytes k) - 1) in
  if is_signed k && (half <=? u) then u - 2 * half else u.

(** The bytes that writing [x] appends. *)
Definition encoding (x : typed) : Buffer :=
  match x with
  | TInt k v => le_bytes (int_bytes k) v
  | TFloat32 v => le_bytes 4 (IEEE754.bits_of_single (IEEE754.to_single v))
  | TDouble v => le_bytes 8 (IEEE754.bits_of_double v)
  | TBytes v => v
  end.

(** Make the reads in order, collecting what they return; [None] as soon
    as one throws. *)
Fixpoint read_all (ops : list read_op) (r : BinReader.t)
  : option (list value * BinReader.t) :=
  match ops with
  | [] => Some ([], r)
  | op :: rest =>
      match do_read op r with
      | (inr v, r') =>
          match read_all rest r' with
          | Some (vs, r'') => Some (v :: vs, r'')
          | None => None
          end
      | (inl _, _) => None
      end
  end.

(** The reader has [n] bytes left at its position. *)
Definition has_bytes (r : BinReader.t) (n : Z) : Prop :=
  0 <= BinReader.position r
  /\ BinReader.position r + n <= NodeBuffer.length (BinReader.buffer r).

(** The unsigned type of the same width. *)
Definition unsigned_of (k : int_kind) : int_kind :=
  match k with
  | UInt8 | Int8 => UInt8
  | UInt16 | Int16 => UInt16
  | UInt32 | Int32 => UInt32
  end.

(** The value given to a write is one its range check lets through; the
    float and byte-span writes have no such check. *)
Definition accepted (op : write_op) : bool :=
  match op with
  | WriteUInt8 v => in_range UInt8 v
  | WriteInt8 v => in_range Int8 v
  | WriteUInt16 v => in_range UInt16 v
  | WriteInt16 v => in_range Int16 v
  | WriteUInt32 v => in_range UInt32 v
  | WriteInt32 v => in_range Int32 v
  | WriteFloat32 _ | WriteDouble _ | WriteBytes _ => true
  end.

(** Sum of the byte widths of the values read by [ops]. *)
Definition total_read_width (ops : list read_op) : Z :=
  fold_right Z.add 0 (map read_width ops).

(** ** Safe integers

    [position] and the lengths passed to [readBytes] are doubles.  The
    sum [this.position + length] that the reader computes is the integer
    sum as long as both terms and the sum are safe integers
    ([Number.isSafeInteger]); beyond that range the double sum is rounded
    and [BinReader.advance], which adds in [Z], no longer describes it. *)

Definition is_safe_integer (z : Z) : bool :=
  (- (2 ^ 53 - 1) <=? z) && (z <=? 2 ^ 53 - 1).

(** Moving the reader [r] by [n] is an exact addition. *)
Definition exact_advance (r : BinReader.t) (n : Z) : bool :=
  is_safe_integer (BinReader.position r)
  && is_safe_integer n
  && is_safe_integer (BinReader.position r + n).

(** Every call of the sequence [ops], made in order from [r], moves the
    reader by an exact addition. *)
Fixpoint exact_run (ops : list read_op) (r : BinReader.t) : bool :=
  match ops with
  | [] => true
  | op :: rest =>
      exact_advance r (read_width op) && exact_run rest (snd (do_read op r))
  end.

(** ** Integer writes on any number

    The integer methods of the writer take a [number], which need not be
    an integer.  Here the argument is a binary64 datum: the range check
    compares it as a real number (no comparison holds of NaN), and a store
    into a byte slot or [>>>] first drops the fraction, taking NaN to 0. *)

Module Numeric.

(** The exact order between the number [x] and the integer [c]; [None]
    when [x] is NaN. *)
Definition compare (x : spec_float) (c : Z) : option comparison :=
  match x with
  | S754_nan => None
  | S754_infinity s => Some (if s then Lt else Gt)
  | S754_zero _ => Some (0 ?= c)
  | S754_finite s m e =>
      let m' := if s then Zneg m else Zpos m in
      Some (if 0 <=? e then m' * 2 ^ e ?= c else m' ?= c * 2 ^ (- e))
  end.

(** [x > c] and [x < c] *)
Definition gt (x : spec_float) (c : Z) : bool :=
  match compare x c with Some Gt => true | _ => false end.
Definition lt (x : spec_float) (c : Z) : bool :=
  match compare x c with Some Lt => true | _ => false end.

(** The integer part of [x], rounding toward zero; 0 for NaN and the
    infinities, as [ToUint8] and [ToUint32] take them. *)
Definition ToInteger (x : spec_float) : Z :=
  match x with
  | S754_finite s m e =>
      let a := if 0 <=? e then Zpos m * 2 ^ e else Zpos m / 2 ^ (- e) in
      if s then - a else a
  | _ => 0
  end.

(** [x] is an integer. *)
Definition is_integer (x : spec_float) : bool :=
  match x with
  | S754_zero _ => true
  | S754_finite _ m e => (0 <=? e) || (Zpos m mod 2 ^ (- e) =? 0)
  | _ => false
  end.

Definition checkInt (value : spec_float) (min max : Z) (buf : Buffer)
  (offset byteLength : Z) : option error :=
  if gt value max || lt value min then Some (ERR_OUT_OF_RANGE Value)
  else NodeBuffer.checkBounds buf offset byteLength.

Definition writeU_Int8 (buf : Buffer) (value : spec_float) (offset min max : Z)
  : error + Buffer :=
  if gt value max || lt value min then inl (ERR_OUT_OF_RANGE Value)
  else match NodeBuffer.get buf offset with
       | None => inl (NodeBuffer.boundsError offset (NodeBuffer.length buf - 1))
       | Some _ => inr (NodeBuffer.set buf offset (ToInteger value))
       end.

Definition writeU_Int16LE (buf : Buffer) (value : spec_float) (offset min max : Z)
  : error + Buffer :=
  match checkInt value min max buf offset 1 with
  | Some e => inl e
  | None =>
      let buf := NodeBuffer.set buf offset (ToInteger value) in
      let buf := NodeBuffer.set buf (offset + 1) (js_ushr (ToInteger value) 8) in
      inr buf
  end.

Definition writeU_Int32LE (buf : Buffer) (value : spec_float) (offset min max : Z)
  : error + Buffer :=
  match checkInt value min max buf offset 3 with
  | Some e => inl e
  | None =>
      let buf := NodeBuffer.set buf offset (ToInteger value) in
      let value := js_ushr (ToInteger value) 8 in
      let buf := NodeBuffer.set buf (offset + 1) value in
      let value := js_ushr value 8 in
      let buf := NodeBuffer.set buf (offset + 2) value in
      let value := js_ushr value 8 in
      let buf := NodeBuffer.set buf (offset + 3) value in
      inr buf
  end.

Local Open Scope method_scope.

Definition writeUInt8 (value : spec_float) : M BinWriter.t unit :=
  chunk <- eval (fun _ => writeU_Int8 (NodeBuffer.alloc 1) value 0 0 0xff) ;;
  BinWriter.append chunk.

Definition writeUInt16 (value : spec_float) : M BinWriter.t unit :=
  chunk <- eval (fun _ => writeU_Int16LE (NodeBuffer.alloc 2) value 0 0 0xffff) ;;
  BinWriter.append chunk.

Definition writeUInt32 (value : spec_float) : M BinWriter.t unit :=
  chunk <- eval (fun _ => writeU_Int32LE (NodeBuffer.alloc 4) value 0 0 0xffffffff) ;;
  BinWriter.append chunk.

Definition writeInt8 (value : spec_float) : M BinWriter.t unit :=
  chunk <- eval (fun _ => writeU_Int8 (NodeBuffer.alloc 1) value 0 (- 0x80) 0x7f) ;;
  BinWriter.append chunk.

Definition writeInt16 (value : spec_float) : M BinWriter.t unit :=
  chunk <- eval (fun _ => writeU_Int16LE (NodeBuffer.alloc 2) value 0 (- 0x8000) 0x7fff) ;;
  BinWriter.append chunk.

Definition writeInt32 (value : spec_float) : M BinWriter.t unit :=
  chunk <- eval (fun _ =>
             writeU_Int32LE (NodeBuffer.alloc 4) value 0 (- 0x80000000) 0x7fffffff) ;;
  BinWriter.append chunk.

Definition write (k : int_kind) (value : spec_float) : M BinWriter.t unit :=
  match k with
  | UInt8 => writeUInt8 value
  | Int8 => writeInt8 value
  | UInt16 => writeUInt16 value
  | Int16 => writeInt16 value
  | UInt32 => writeUInt32 value
  | Int32 => writeInt32 value
  end.

(** The range check rejects [value]. *)
Definition rejects (k : int_kind) (value : spec_float) : bool :=
  gt value (int_max k) || lt value (int_min k).

End Numeric.

(** * Properties *)

(** ** Indexing *)

Lemma byte_to_Z_range (b : byte) : 0 <= byte_to_Z b < 256.
Proof.
  unfold byte_to_Z. pose proof (Byte.to_N_bounded b) as H.
  lia.
Qed.

Lemma length_nonneg (b : Buffer) : 0 <= NodeBuffer.length b.
Proof. unfold NodeBuffer.length. lia. Qed.

Lemma get_None (b : Buffer) (i : Z) :
  NodeBuffer.get b i = None <-> i < 0 \/ NodeBuffer.length b <= i.
Proof.
  unfold NodeBuffer.get, NodeBuffer.length.
  destruct (Z.ltb_spec i 0) as [Hi | Hi]; [intuition lia |].
  destruct (nth_error b (Z.to_nat i)) as [x |] eqn:E; cbn.
  - assert (Z.to_nat i < List.length b)%nat
      by (apply nth_error_Some; congruence).
    split; [discriminate | lia].
  - apply nth_error_None in E. split; [lia | reflexivity].
Qed.

Lemma get_Some (b : Buffer) (i : Z) :
  0 <= i < NodeBuffer.length b ->
  exists v, NodeBuffer.get b i = Some v /\ 0 <= v < 256.
Proof.
  intros Hi. destruct (NodeBuffer.get b i) as [v |] eqn:E.
  - exists v. split; [reflexivity |].
    unfold NodeBuffer.get in E. destruct (i <? 0); [discriminate |].
    destruct (nth_error b (Z.to_nat i)); [| discriminate].
    injection E as <-. apply byte_to_Z_range.
  - apply get_None in E. lia.
Qed.

Lemma get_Some_inv (b : Buffer) (i v : Z) :
  NodeBuffer.get b i = Some v -> 0 <= i < NodeBuffer.length b /\ 0 <= v < 256.
Proof.
  intros E.
  assert (Hi : 0 <= i < NodeBuffer.length b).
  { destruct (Z.ltb_spec i 0) as [Hneg | Hpos].
    - assert (N : NodeBuffer.get b i = None) by (apply get_None; lia).
      congruence.
    - destruct (Z.ltb_spec i (NodeBuffer.length b)) as [Hlt | Hge]; [lia |].
      assert (N : NodeBuffer.get b i = None) by (apply get_None; lia).
      congruence. }
  split; [exact Hi |].
  destruct (get_Some b i Hi) as (v' & E' & Hv'). congruence.
Qed.

Lemma boundsError_OutOfBounds (value length : Z) :
  OutOfBounds (NodeBuffer.boundsError value length).
Proof.
  unfold NodeBuffer.boundsError, OutOfBounds.
  destruct (length <? 0); [right | left]; reflexivity.
Qed.

(** ** Fixed-width reads *)

Ltac unfold_read :=
  unfold do_read, returning, BinReader.readUInt8, BinReader.readInt8,
    BinReader.readUInt16, BinReader.readInt16, BinReader.readUInt32,
    BinReader.readInt32, BinReader.readFloat32, BinReader.readDouble,
    BinReader.readBytes, BinReader.advance, bind, eval, assign, ret,
    NodeBuffer.readUInt8, NodeBuffer.readInt8, NodeBuffer.readUInt16LE,
    NodeBuffer.readInt16LE, NodeBuffer.readUInt32LE, NodeBuffer.readInt32LE,
    NodeBuffer.readFloatLE, NodeBuffer.readDoubleLE.

(** The slots a fixed-width read of [w] bytes inspects before decoding. *)
Ltac slots b p w :=
  let first := fresh "first" in
  let last := fresh "last" in
  let E1 := fresh "Efirst" in
  let E2 := fresh "Elast" in
  let k := eval cbv in (w - 1) in
  destruct (NodeBuffer.get b p) as [first |] eqn:E1;
  [ apply get_Some_inv in E1 | apply get_None in E1 ];
  try (destruct (NodeBuffer.get b (p + k)) as [last |] eqn:E2;
       [ apply get_Some_inv in E2 | apply get_None in E2 ]).

Lemma fixed_read_throws (op : read_op) (r : BinReader.t) :
  fixed_width op = true ->
  BinReader.position r < 0
  \/ NodeBuffer.length (BinReader.buffer r) < BinReader.position r + read_width op ->
  exists e, do_read op r = (inl e, r) /\ OutOfBounds e.
Proof.
  intros Hop Hpos. destruct r as [b p]. cbn [BinReader.position BinReader.buffer] in *.
  destruct op; try discriminate Hop; cbn [read_width] in Hpos; unfold_read;
    cbn [BinReader.position BinReader.buffer];
    match goal with
    | |- context [NodeBuffer.boundsError _ (_ - ?w)] => slots b p w
    end;
    try lia;
    eexists; (split; [reflexivity | apply boundsError_OutOfBounds]).
Qed.

Lemma fixed_read_returns (op : read_op) (r : BinReader.t) :
  fixed_width op = true ->
  0 <= BinReader.position r ->
  BinReader.position r + read_width op <= NodeBuffer.length (BinReader.buffer r) ->
  exists v, do_read op r = (inr v, moved r (read_width op)).
Proof.
  intros Hop Hlo Hhi. destruct r as [b p]. unfold moved.
  cbn [BinReader.position BinReader.buffer] in *.
  destruct op; try discriminate Hop; cbn [read_width] in *; unfold_read;
    cbn [BinReader.position BinReader.buffer];
    match goal with
    | |- context [NodeBuffer.boundsError _ (_ - ?w)] => slots b p w
    end;
    try lia;
    eexists; reflexivity.
Qed.

(** ** [readBytes] *)

Lemma readBytes_eq (n : Z) (r : BinReader.t) :
  BinReader.readBytes n r
  = (inr (NodeBuffer.subarray (BinReader.buffer r) (BinReader.position r)
                              (BinReader.position r + n)),
     moved r n).
Proof. reflexivity. Qed.

Lemma adjustOffset_from_end (x len : Z) :
  0 <= len -> NodeBuffer.adjustOffset x len = from_end len x.
Proof.
  intros Hlen. unfold NodeBuffer.adjustOffset, from_end, clamp.
  destruct (Z.eqb_spec x 0) as [-> | Hx]; [cbn; lia |].
  destruct (Z.ltb_spec x 0); [destruct (Z.ltb_spec 0 (x + len)); lia |].
  destruct (Z.ltb_spec x len); lia.
Qed.

Lemma subarray_span (b : Buffer) (lo hi : Z) :
  NodeBuffer.subarray b lo hi
  = span b (from_end (NodeBuffer.length b) lo) (from_end (NodeBuffer.length b) hi).
Proof.
  unfold NodeBuffer.subarray, span.
  rewrite !adjustOffset_from_end by apply length_nonneg.
  set (s := from_end _ lo). set (e := from_end _ hi).
  destruct (Z.ltb_spec s e); [reflexivity |].
  replace (Z.to_nat (e - s)) with 0%nat by lia. reflexivity.
Qed.

Lemma from_end_nonneg (len x : Z) : 0 <= x -> from_end len x = clamp len x.
Proof.
  intros Hx. unfold from_end. destruct (Z.ltb_spec x 0); [lia | reflexivity].
Qed.

(** ** Claims about the reader *)

(** C2, the claim as stated fails: after [readBytes(-1)] on a fresh reader
    over two bytes the position is [-1]; a following [readUInt8] has
    [position + 1 <= buffer.length] and still throws. *)
Lemma readUInt8_at_negative_position_throws :
  BinReader.readBytes (-1) (BinReader.new [x01; x02])
  = (inr [x01], BinReader.new_at [x01; x02] (-1))
  /\ BinReader.position (BinReader.new_at [x01; x02] (-1)) + read_width ReadUInt8
     <= NodeBuffer.length (BinReader.buffer (BinReader.new_at [x01; x02] (-1)))
  /\ do_read ReadUInt8 (BinReader.new_at [x01; x02] (-1))
     = (inl (ERR_OUT_OF_RANGE Offset), BinReader.new_at [x01; x02] (-1)).
Proof. split; [reflexivity |]. split; [cbn; lia | reflexivity]. Qed.

(** C2 (amended): in every reader state whose position is an integer, a
    fixed-width read of width [w] throws an [OutOfBounds] error,
    returning nothing and leaving the reader as it was, when
    [position + w] exceeds the buffer length or [position] is negative; it
    returns a value and advances [position] by [w] otherwise. *)
Theorem fixed_read_contract (op : read_op) (r : BinReader.t) :
  fixed_width op = true ->
  (BinReader.position r < 0
   \/ NodeBuffer.length (BinReader.buffer r) < BinReader.position r + read_width op ->
   exists e, do_read op r = (inl e, r) /\ OutOfBounds e)
  /\ (0 <= BinReader.position r
      /\ BinReader.position r + read_width op <= NodeBuffer.length (BinReader.buffer r) ->
      exists v, do_read op r = (inr v, moved r (read_width op))).
Proof.
  intros Hop. split.
  - apply fixed_read_throws, Hop.
  - intros [Hlo Hhi]. apply fixed_read_returns; assumption.
Qed.

Lemma fixed_read_contract_witness :
  fixed_width ReadInt16 = true
  /\ ((BinReader.position (BinReader.new [x04; x03]) < 0
       \/ NodeBuffer.length (BinReader.buffer (BinReader.new [x04; x03]))
          < BinReader.position (BinReader.new [x04; x03]) + read_width ReadInt16 ->
       exists e, do_read ReadInt16 (BinReader.new [x04; x03])
                 = (inl e, BinReader.new [x04; x03]) /\ OutOfBounds e)
      /\ (0 <= BinReader.position (BinReader.new [x04; x03])
          /\ BinReader.position (BinReader.new [x04; x03]) + read_width ReadInt16
             <= NodeBuffer.length (BinReader.buffer (BinReader.new [x04; x03])) ->
          exists v, do_read ReadInt16 (BinReader.new [x04; x03])
                    = (inr v, moved (BinReader.new [x04; x03]) (read_width ReadInt16)))).
Proof.
  split; [reflexivity |].
  apply (fixed_read_contract ReadInt16 (BinReader.new [x04; x03])). reflexivity.
Defined.

Lemma do_read_ReadBytes (n : Z) (r : BinReader.t) :
  do_read (ReadBytes n) r
  = (inr (VBytes (NodeBuffer.subarray (BinReader.buffer r) (BinReader.position r)
                                      (BinReader.position r + n))),
     moved r n).
Proof. reflexivity. Qed.

(** What a call leaves behind: a fixed-width read either throws and
    leaves the reader alone, or returns and moves it by its width inside
    the buffer; [readBytes] always returns and moves it by its length. *)
Lemma do_read_cases (op : read_op) (r : BinReader.t) :
  (fixed_width op = true
   /\ (BinReader.position r < 0
       \/ NodeBuffer.length (BinReader.buffer r) < BinReader.position r + read_width op)
   /\ exists e, do_read op r = (inl e, r) /\ OutOfBounds e)
  \/ (fixed_width op = true
      /\ 0 <= BinReader.position r
      /\ BinReader.position r + read_width op <= NodeBuffer.length (BinReader.buffer r)
      /\ exists v, do_read op r = (inr v, moved r (read_width op)))
  \/ (fixed_width op = false
      /\ exists v, do_read op r = (inr v, moved r (read_width op))).
Proof.
  destruct (fixed_width op) eqn:Hop.
  - destruct (Z.ltb_spec (BinReader.position r) 0) as [Hneg | Hpos].
    + left. repeat split; [lia |]. apply fixed_read_throws; [exact Hop | lia].
    + destruct (Z.ltb_spec (NodeBuffer.length (BinReader.buffer r))
                           (BinReader.position r + read_width op)) as [Hout | Hin].
      * left. repeat split; [lia |]. apply fixed_read_throws; [exact Hop | lia].
      * right. left. repeat split; try lia. apply fixed_read_returns; assumption.
  - right. right. split; [reflexivity |].
    destruct op; try discriminate Hop. eexists. apply do_read_ReadBytes.
Qed.

Lemma read_width_fixed_pos (op : read_op) :
  fixed_width op = true -> 0 < read_width op.
Proof. destruct op; cbn; intros; try lia; discriminate. Qed.

(** C4, the claim as stated fails: [readBytes(5)] on a fresh reader over
    two bytes needs [position + 5 > buffer.length], yet it returns and
    leaves [position = 5], outside the buffer. *)
Lemma readBytes_past_end_breaks_invariant :
  NodeBuffer.length (BinReader.buffer (BinReader.new [x01; x02]))
  < BinReader.position (BinReader.new [x01; x02]) + read_width (ReadBytes 5)
  /\ do_read (ReadBytes 5) (BinReader.new [x01; x02])
     = (inr (VBytes [x01; x02]), BinReader.new_at [x01; x02] 5)
  /\ ~ invariant (BinReader.new_at [x01; x02] 5).
Proof.
  split; [reflexivity |]. split; [reflexivity |].
  unfold invariant. cbn. lia.
Qed.

Lemma invariant_trace (ops : list read_op) (r : BinReader.t) :
  invariant r ->
  lengths_fit ops r = true ->
  Forall (fun c =>
            (returned c -> invariant (c_after c))
            /\ (fixed_width (c_op c) = true ->
                NodeBuffer.length (BinReader.buffer (c_before c))
                < BinReader.position (c_before c) + read_width (c_op c) ->
                threw_OutOfBounds c /\ c_after c = c_before c))
         (trace ops r).
Proof.
  revert r. induction ops as [| op rest IH]; intros r Hinv Hfit; cbn [trace].
  - constructor.
  - cbn [lengths_fit] in Hfit. apply andb_true_iff in Hfit as [Hop Hrest].
    unfold invariant in Hinv.
    destruct (do_read_cases op r)
      as [(Hfix & Hout & e & E & He) | [(Hfix & Hlo & Hhi & v & E) | (Hfix & v & E)]];
      rewrite E in *; cbn [snd] in Hrest.
    + constructor; [| apply IH; assumption].
      unfold returned, threw_OutOfBounds; cbn. split; [tauto | auto].
    + assert (Hinv' : invariant (moved r (read_width op))).
      { pose proof (read_width_fixed_pos op Hfix). unfold invariant, moved; cbn. lia. }
      constructor; [| apply IH; assumption].
      unfold returned, threw_OutOfBounds; cbn. split; [auto | intros; lia].
    + destruct op; try discriminate Hfix. cbn [length_fits read_width] in *.
      apply andb_true_iff in Hop as [Hn Hle].
      apply Z.leb_le in Hn, Hle.
      assert (Hinv' : invariant (moved r length)).
      { unfold invariant, moved; cbn. lia. }
      constructor; [| apply IH; assumption].
      unfold returned; cbn. split; [auto | discriminate].
Qed.

(** C4 (amended): over every sequence of reads on a fresh reader in which
    each [readBytes] length is non-negative and no more than the bytes
    left, every call that returns leaves [0 <= position <= buffer.length],
    and every fixed-width call that needs [position + width >
    buffer.length] throws [OutOfBounds] and leaves the reader as it was. *)
Theorem invariant_after_reads (buf : Buffer) (ops : list read_op) :
  lengths_fit ops (BinReader.new buf) = true ->
  Forall (fun c =>
            (returned c -> invariant (c_after c))
            /\ (fixed_width (c_op c) = true ->
                NodeBuffer.length (BinReader.buffer (c_before c))
                < BinReader.position (c_before c) + read_width (c_op c) ->
                threw_OutOfBounds c /\ c_after c = c_before c))
         (trace ops (BinReader.new buf)).
Proof.
  apply invariant_trace. unfold invariant; cbn. pose proof (length_nonneg buf). lia.
Qed.

Lemma invariant_after_reads_witness :
  lengths_fit [ReadUInt8; ReadBytes 2; ReadInt16] (BinReader.new [x01; x02; x03]) = true
  /\ Forall (fun c =>
               (returned c -> invariant (c_after c))
               /\ (fixed_width (c_op c) = true ->
                   NodeBuffer.length (BinReader.buffer (c_before c))
                   < BinReader.position (c_before c) + read_width (c_op c) ->
                   threw_OutOfBounds c /\ c_after c = c_before c))
            (trace [ReadUInt8; ReadBytes 2; ReadInt16] (BinReader.new [x01; x02; x03])).
Proof.
  split; [reflexivity |].
  apply (invariant_after_reads [x01; x02; x03] [ReadUInt8; ReadBytes 2; ReadInt16]).
  reflexivity.
Defined.

(** C5, the claim as stated fails: [readBytes(-1)] on a fresh reader
    throws nothing; it returns an empty span and sets [position] to -1. *)
Lemma readBytes_minus_one_returns :
  BinReader.readBytes (-1) (BinReader.new [])
  = (inr [], BinReader.new_at [] (-1)).
Proof. reflexivity. Qed.

(** C5 (amended): for a negative integer length [n], with [position],
    [n] and [position + n] safe integers, [readBytes(n)] does not throw:
    it returns [buffer.subarray(position, position + n)], the span
    between the two endpoints where a negative endpoint counts back from
    the end of the buffer and every endpoint is then clamped to its
    bounds, which is empty when [position + n] is not negative; and it
    moves [position] back to [position + n]. *)
Theorem readBytes_negative_length (r : BinReader.t) (n : Z) :
  n < 0 ->
  exact_advance r n = true ->
  let len := NodeBuffer.length (BinReader.buffer r) in
  let pos := BinReader.position r in
  BinReader.readBytes n r
  = (inr (span (BinReader.buffer r) (from_end len pos) (from_end len (pos + n))),
     moved r n)
  /\ BinReader.position (moved r n) < BinReader.position r
  /\ (0 <= pos + n ->
      span (BinReader.buffer r) (from_end len pos) (from_end len (pos + n)) = []).
Proof.
  intros Hn _. cbv zeta. split; [| split].
  - rewrite readBytes_eq, subarray_span. reflexivity.
  - cbn. lia.
  - intros Hend. rewrite !from_end_nonneg by lia. unfold span, clamp.
    replace (Z.to_nat _) with 0%nat at 1 by lia. reflexivity.
Qed.

Lemma readBytes_negative_length_witness :
  -1 < 0
  /\ exact_advance (BinReader.new_at [x01; x02; x03] 2) (-1) = true
  /\ BinReader.readBytes (-1) (BinReader.new_at [x01; x02; x03] 2)
     = (inr (span [x01; x02; x03] (from_end 3 2) (from_end 3 (2 + -1))),
        moved (BinReader.new_at [x01; x02; x03] 2) (-1))
  /\ BinReader.position (moved (BinReader.new_at [x01; x02; x03] 2) (-1))
     < BinReader.position (BinReader.new_at [x01; x02; x03] 2).
Proof.
  split; [lia |]. split; [reflexivity |].
  destruct (readBytes_negative_length (BinReader.new_at [x01; x02; x03] 2) (-1))
    as (H1 & H2 & _); [lia | reflexivity |].
  split; [exact H1 | exact H2].
Defined.

(** C7, the claim as stated fails: [readBytes(-1)] is a read that returns
    and leaves [position] smaller than it found it. *)
Lemma readBytes_negative_moves_back :
  do_read (ReadBytes (-1)) (BinReader.new [])
  = (inr (VBytes []), BinReader.new_at [] (-1))
  /\ BinReader.position (BinReader.new_at [] (-1))
     < BinReader.position (BinReader.new []).
Proof. split; [reflexivity | cbn; lia]. Qed.

Lemma advance_trace (ops : list read_op) (r : BinReader.t) :
  Forall (fun c =>
            returned c ->
            BinReader.position (c_after c)
            = BinReader.position (c_before c) + read_width (c_op c))
         (trace ops r).
Proof.
  revert r. induction ops as [| op rest IH]; intros r; cbn [trace].
  - constructor.
  - destruct (do_read_cases op r)
      as [(_ & _ & e & E & _) | [(_ & _ & _ & v & E) | (_ & v & E)]];
      rewrite E; (constructor; [| apply IH]); unfold returned; cbn; tauto.
Qed.

Lemma monotone_trace (ops : list read_op) (r : BinReader.t) :
  forallb length_nonneg_op ops = true ->
  Forall (fun c => BinReader.position (c_before c) <= BinReader.position (c_after c))
         (trace ops r).
Proof.
  revert r. induction ops as [| op rest IH]; intros r Hops; cbn [trace].
  - constructor.
  - cbn [forallb] in Hops. apply andb_true_iff in Hops as [Hop Hrest].
    destruct (do_read_cases op r)
      as [(_ & _ & e & E & _) | [(Hfix & _ & _ & v & E) | (Hfix & v & E)]];
      rewrite E; (constructor; [| apply IH; exact Hrest]); cbn.
    + lia.
    + pose proof (read_width_fixed_pos op Hfix). lia.
    + destruct op; try discriminate Hfix. cbn in Hop |- *.
      apply Z.leb_le in Hop. lia.
Qed.

(** C7 (amended): a fresh reader has [position = 0]; over every sequence
    of reads whose positions and lengths are integers and in which every
    [position + width] is a safe integer, each call that returns leaves
    [position] equal to what it found plus the width of its type (for
    [readBytes], the length passed); and when every [readBytes] length in
    the sequence is non-negative, [position] never decreases. *)
Theorem position_advances (buf : Buffer) (r : BinReader.t) (ops : list read_op) :
  exact_run ops r = true ->
  BinReader.position (BinReader.new buf) = 0
  /\ Forall (fun c =>
               returned c ->
               BinReader.position (c_after c)
               = BinReader.position (c_before c) + read_width (c_op c))
            (trace ops r)
  /\ (forallb length_nonneg_op ops = true ->
      Forall (fun c => BinReader.position (c_before c) <= BinReader.position (c_after c))
             (trace ops r)).
Proof.
  intros _.
  split; [reflexivity |]. split; [apply advance_trace | apply monotone_trace].
Qed.

Lemma position_advances_witness :
  exact_run [ReadUInt16; ReadBytes 1; ReadDouble] (BinReader.new [x01; x02; x03]) = true
  /\ forallb length_nonneg_op [ReadUInt16; ReadBytes 1; ReadDouble] = true
  /\ Forall (fun c =>
               returned c ->
               BinReader.position (c_after c)
               = BinReader.position (c_before c) + read_width (c_op c))
            (trace [ReadUInt16; ReadBytes 1; ReadDouble] (BinReader.new [x01; x02; x03]))
  /\ Forall (fun c => BinReader.position (c_before c) <= BinReader.position (c_after c))
            (trace [ReadUInt16; ReadBytes 1; ReadDouble] (BinReader.new [x01; x02; x03])).
Proof.
  split; [reflexivity |]. split; [reflexivity |].
  destruct (position_advances [] (BinReader.new [x01; x02; x03])
                              [ReadUInt16; ReadBytes 1; ReadDouble])
    as (_ & H2 & H3); [reflexivity |].
  split; [exact H2 | apply H3; reflexivity].
Defined.

(** C10, the claim as stated fails: at [position = 1] in a four-byte
    buffer, where one [readUInt8] leaves a fresh reader, [readBytes(-2)]
    asks for the span from 1 to -1.  Clamping the
    end to the buffer's bounds would give the empty span; the code returns
    the two bytes from index 1 up to index 3, one short of the end. *)
Lemma readBytes_negative_end_counts_from_end :
  BinReader.readUInt8 (BinReader.new [x01; x02; x03; x04])
  = (inr 1, BinReader.new_at [x01; x02; x03; x04] 1)
  /\ BinReader.readBytes (-2) (BinReader.new_at [x01; x02; x03; x04] 1)
     = (inr [x02; x03], BinReader.new_at [x01; x02; x03; x04] (-1))
  /\ readBytes_clamped (-2) (BinReader.new_at [x01; x02; x03; x04] 1)
     = (inr [], BinReader.new_at [x01; x02; x03; x04] (-1)).
Proof. repeat split. Qed.

(** C10 (amended): for every reader and every integer length, with
    [position], the length and [position + length] safe integers,
    [readBytes(length)] throws nothing and sets [position] to
    [position + length], whatever the length; it returns the span of the
    buffer between the endpoints [position] and [position + length], where
    a negative endpoint counts back from the end of the buffer and every
    endpoint is then clamped to the buffer's bounds.  When neither
    endpoint is negative this is the span with both endpoints clamped. *)
Theorem readBytes_total (n : Z) (r : BinReader.t) :
  exact_advance r n = true ->
  let len := NodeBuffer.length (BinReader.buffer r) in
  let pos := BinReader.position r in
  BinReader.readBytes n r
  = (inr (span (BinReader.buffer r) (from_end len pos) (from_end len (pos + n))),
     moved r n)
  /\ (0 <= pos -> 0 <= pos + n -> BinReader.readBytes n r = readBytes_clamped n r).
Proof.
  intros _. cbv zeta. split.
  - rewrite readBytes_eq, subarray_span. reflexivity.
  - intros Hpos Hend. rewrite readBytes_eq, subarray_span.
    unfold readBytes_clamped, moved.
    rewrite !from_end_nonneg by assumption. reflexivity.
Qed.

Lemma readBytes_total_witness :
  exact_advance (BinReader.new [x01; x02]) 5 = true
  /\ 0 <= BinReader.position (BinReader.new [x01; x02])
  /\ 0 <= BinReader.position (BinReader.new [x01; x02]) + 5
  /\ BinReader.readBytes 5 (BinReader.new [x01; x02])
     = (inr (span [x01; x02] (from_end 2 0) (from_end 2 (0 + 5))),
        moved (BinReader.new [x01; x02]) 5)
  /\ BinReader.readBytes 5 (BinReader.new [x01; x02])
     = readBytes_clamped 5 (BinReader.new [x01; x02]).
Proof.
  split; [reflexivity |]. split; [cbn; lia |]. split; [cbn; lia |].
  destruct (readBytes_total 5 (BinReader.new [x01; x02])) as (H1 & H2);
    [reflexivity |].
  split; [exact H1 | apply H2; cbn; lia].
Defined.

(** ** Integer writes *)

Lemma ToUint8_mod (z z' : Z) : z mod 256 = z' mod 256 -> ToUint8 z = ToUint8 z'.
Proof. unfold ToUint8. intros ->. reflexivity. Qed.

Lemma js_ushr_8 (v : Z) : js_ushr v 8 = (v / 2 ^ 8) mod 2 ^ 24.
Proof.
  unfold js_ushr, ToUint32. change (8 mod 32) with 8.
  rewrite Z.shiftr_div_pow2 by lia.
  change (2 ^ 32) with 4294967296. change (2 ^ 8) with 256.
  change (2 ^ 24) with 16777216.
  Z.to_euclidean_division_equations. lia.
Qed.

Lemma ToUint8_ushr1 (v : Z) : ToUint8 (js_ushr v 8) = ToUint8 (v / 2 ^ 8).
Proof.
  apply ToUint8_mod. rewrite js_ushr_8.
  change (2 ^ 8) with 256. change (2 ^ 24) with 16777216.
  Z.to_euclidean_division_equations. lia.
Qed.

Lemma ToUint8_ushr2 (v : Z) :
  ToUint8 (js_ushr (js_ushr v 8) 8) = ToUint8 (v / 2 ^ 8 / 2 ^ 8).
Proof.
  apply ToUint8_mod. rewrite !js_ushr_8.
  change (2 ^ 8) with 256. change (2 ^ 24) with 16777216.
  Z.to_euclidean_division_equations. lia.
Qed.

Lemma ToUint8_ushr3 (v : Z) :
  ToUint8 (js_ushr (js_ushr (js_ushr v 8) 8) 8) = ToUint8 (v / 2 ^ 8 / 2 ^ 8 / 2 ^ 8).
Proof.
  apply ToUint8_mod. rewrite !js_ushr_8.
  change (2 ^ 8) with 256. change (2 ^ 24) with 16777216.
  Z.to_euclidean_division_equations. lia.
Qed.

Lemma range_check (k : int_kind) (v : Z) :
  (int_max k <? v) || (v <? int_min k) = negb (in_range k v).
Proof.
  unfold in_range.
  destruct (Z.ltb_spec (int_max k) v), (Z.ltb_spec v (int_min k)),
    (Z.leb_spec (int_min k) v), (Z.leb_spec v (int_max k)); cbn; try reflexivity; lia.
Qed.

Lemma concat_pair (a b : Buffer) : NodeBuffer.concat [a; b] = a ++ b.
Proof. unfold NodeBuffer.concat. cbn. rewrite app_nil_r. reflexivity. Qed.

Lemma store2 (a b : Z) :
  NodeBuffer.set (NodeBuffer.set (NodeBuffer.alloc 2) 0 a) (0 + 1) b
  = [ToUint8 a; ToUint8 b].
Proof. reflexivity. Qed.

Lemma store4 (a b c d : Z) :
  NodeBuffer.set
    (NodeBuffer.set
       (NodeBuffer.set (NodeBuffer.set (NodeBuffer.alloc 4) 0 a) (0 + 1) b)
       (0 + 2) c)
    (0 + 3) d
  = [ToUint8 a; ToUint8 b; ToUint8 c; ToUint8 d].
Proof. reflexivity. Qed.

Lemma write_int_eq (k : int_kind) (v : Z) (w : BinWriter.t) :
  do_write (write_int k v) w
  = if in_range k v
    then (inr tt, {| BinWriter.buffer := BinWriter.buffer w ++ le_bytes (int_bytes k) v |})
    else (inl (ERR_OUT_OF_RANGE Value), w).
Proof.
  pose proof (range_check k v) as Hrange.
  destruct k; cbn [write_int do_write int_bytes le_bytes];
    unfold BinWriter.writeUInt8, BinWriter.writeInt8, BinWriter.writeUInt16,
      BinWriter.writeInt16, BinWriter.writeUInt32, BinWriter.writeInt32,
      BinWriter.append, bind, eval, assign,
      NodeBuffer.writeUInt8, NodeBuffer.writeInt8, NodeBuffer.writeUInt16LE,
      NodeBuffer.writeInt16LE, NodeBuffer.writeUInt32LE, NodeBuffer.writeInt32LE,
      NodeBuffer.writeU_Int8, NodeBuffer.writeU_Int16LE, NodeBuffer.writeU_Int32LE,
      NodeBuffer.checkInt;
    cbn [int_min int_max] in Hrange;
    match goal with
    | H : ?c = _ |- context [if ?c' then _ else _] =>
        change c' with c; rewrite H
    end;
    destruct (in_range _ v); cbn [negb]; try reflexivity.
  all: rewrite ?store2, ?store4;
    rewrite ?ToUint8_ushr3, ?ToUint8_ushr2, ?ToUint8_ushr1;
    change (NodeBuffer.checkBounds (NodeBuffer.alloc 2) 0 1) with (@None error);
    change (NodeBuffer.checkBounds (NodeBuffer.alloc 4) 0 3) with (@None error);
    cbv iota;
    rewrite concat_pair; reflexivity.
Qed.

(** ** Floating-point and byte-span writes *)

Lemma set_le_alloc4 (bits : Z) :
  NodeBuffer.set_le (NodeBuffer.alloc 4) 0 4 bits = le_bytes 4 bits.
Proof. reflexivity. Qed.

Lemma set_le_alloc8 (bits : Z) :
  NodeBuffer.set_le (NodeBuffer.alloc 8) 0 8 bits = le_bytes 8 bits.
Proof. reflexivity. Qed.

Lemma writeFloat32_eq (v : spec_float) (w : BinWriter.t) :
  BinWriter.writeFloat32 v w
  = (inr tt,
     {| BinWriter.buffer :=
          BinWriter.buffer w
          ++ le_bytes 4 (IEEE754.bits_of_single (IEEE754.to_single v)) |}).
Proof.
  unfold BinWriter.writeFloat32, BinWriter.append, bind, eval, assign,
    NodeBuffer.writeFloatLE.
  change (NodeBuffer.checkBounds (NodeBuffer.alloc 4) 0 3) with (@None error).
  cbv iota. rewrite set_le_alloc4, concat_pair. reflexivity.
Qed.

Lemma writeDouble_eq (v : spec_float) (w : BinWriter.t) :
  BinWriter.writeDouble v w
  = (inr tt,
     {| BinWriter.buffer :=
          BinWriter.buffer w ++ le_bytes 8 (IEEE754.bits_of_double v) |}).
Proof.
  unfold BinWriter.writeDouble, BinWriter.append, bind, eval, assign,
    NodeBuffer.writeDoubleLE.
  change (NodeBuffer.checkBounds (NodeBuffer.alloc 8) 0 7) with (@None error).
  cbv iota. rewrite set_le_alloc8, concat_pair. reflexivity.
Qed.

Lemma writeBytes_eq (v : Buffer) (w : BinWriter.t) :
  BinWriter.writeBytes v w
  = (inr tt, {| BinWriter.buffer := BinWriter.buffer w ++ v |}).
Proof.
  unfold BinWriter.writeBytes, BinWriter.append, assign.
  rewrite concat_pair. reflexivity.
Qed.

Lemma length_le_bytes (n : nat) (v : Z) :
  NodeBuffer.length (le_bytes n v) = Z.of_nat n.
Proof.
  unfold NodeBuffer.length. revert v.
  induction n as [| n IH]; intros v; [reflexivity |].
  cbn [le_bytes List.length]. rewrite !Nat2Z.inj_succ, IH. reflexivity.
Qed.

(** The outputs that the documentation comments of [little.ts] print,
    one method after the other (for [writeInt8] the comment prints [01 fe]
    where the method stores [02 fe]). *)
Example documented_outputs :
  run do_write [WriteUInt8 0xFF] BinWriter.new
  = Some {| BinWriter.buffer := [xff] |}
  /\ run do_write [WriteUInt16 0xdead; WriteUInt16 0xbeef] BinWriter.new
     = Some {| BinWriter.buffer := [xad; xde; xef; xbe] |}
  /\ run do_write [WriteInt16 0x0304] BinWriter.new
     = Some {| BinWriter.buffer := [x04; x03] |}
  /\ run do_write [WriteInt32 0x05060708] BinWriter.new
     = Some {| BinWriter.buffer := [x08; x07; x06; x05] |}
  /\ run do_write [WriteFloat32 (IEEE754.to_double (S754_finite false 0xcafebabe 0))]
         BinWriter.new
     = Some {| BinWriter.buffer := [xbb; xfe; x4a; x4f] |}
  /\ run do_write [WriteBytes [x01; x02; x03; x04; x05]] BinWriter.new
     = Some {| BinWriter.buffer := [x01; x02; x03; x04; x05] |}.
Proof. repeat split; vm_compute; reflexivity. Qed.

(** ** Claims about the writer *)

(** Every write that returns has appended a chunk of its width. *)
Lemma write_appends (op : write_op) (w w' : BinWriter.t) :
  do_write op w = (inr tt, w') ->
  exists chunk,
    BinWriter.buffer w' = BinWriter.buffer w ++ chunk
    /\ NodeBuffer.length chunk = write_width op.
Proof.
  assert (Hint : forall k v,
             do_write (write_int k v) w = (inr tt, w') ->
             exists chunk,
               BinWriter.buffer w' = BinWriter.buffer w ++ chunk
               /\ NodeBuffer.length chunk = Z.of_nat (int_bytes k)).
  { intros k v. rewrite write_int_eq. destruct (in_range k v); [| discriminate].
    intros [= <-]. eexists. split; [reflexivity | apply length_le_bytes]. }
  destruct op as [v | v | v | v | v | v | v | v | v].
  - apply (Hint UInt8 v).
  - apply (Hint Int8 v).
  - apply (Hint UInt16 v).
  - apply (Hint Int16 v).
  - apply (Hint UInt32 v).
  - apply (Hint Int32 v).
  - cbn [do_write]. rewrite writeFloat32_eq. intros [= <-].
    eexists. split; reflexivity.
  - cbn [do_write]. rewrite writeDouble_eq. intros [= <-].
    eexists. split; reflexivity.
  - cbn [do_write]. rewrite writeBytes_eq. intros [= <-].
    eexists. split; reflexivity.
Qed.

(** C3, the claim as stated fails: [writeUInt8(256)] does not append the
    low-order byte [00]; it throws and leaves the buffer empty. *)
Lemma writeUInt8_256_throws :
  do_write (WriteUInt8 256) BinWriter.new
  = (inl (ERR_OUT_OF_RANGE Value), BinWriter.new)
  /\ write_truncating UInt8 256 BinWriter.new
     = (inr tt, {| BinWriter.buffer := [x00] |}).
Proof. split; reflexivity. Qed.

(** ** Integer writes on any number *)

Lemma int_min_max_sign (k : int_kind) : int_min k <= 0 <= int_max k.
Proof. destruct k; cbn; lia. Qed.

Lemma numeric_in_range (k : int_kind) (x : spec_float) :
  Numeric.rejects k x = false -> in_range k (Numeric.ToInteger x) = true.
Proof.
  pose proof (int_min_max_sign k) as Hk.
  unfold Numeric.rejects, Numeric.gt, Numeric.lt, in_range.
  intros H. apply orb_false_iff in H as [Hgt Hlt].
  apply andb_true_iff. rewrite !Z.leb_le.
  destruct x as [s | s | | s m e]; cbn [Numeric.compare Numeric.ToInteger] in *.
  - lia.
  - destruct s; discriminate.
  - lia.
  - destruct (Z.leb_spec 0 e) as [He | He].
    + destruct (Z.compare_spec ((if s then Zneg m else Zpos m) * 2 ^ e) (int_max k));
        try discriminate;
        destruct (Z.compare_spec ((if s then Zneg m else Zpos m) * 2 ^ e) (int_min k));
        try discriminate; destruct s; lia.
    + assert (HK : 0 < 2 ^ (- e)) by (apply Z.pow_pos_nonneg; lia).
      pose proof (Z.div_pos (Zpos m) (2 ^ (- e)) ltac:(lia) HK) as Hq.
      destruct (Z.compare_spec (if s then Zneg m else Zpos m) (int_max k * 2 ^ (- e)));
        try discriminate;
        destruct (Z.compare_spec (if s then Zneg m else Zpos m) (int_min k * 2 ^ (- e)));
        try discriminate; destruct s.
      all: try (assert (Zpos m / 2 ^ (- e) <= - int_min k)
                 by (apply Z.div_le_upper_bound; [exact HK | lia]); lia).
      all: assert (Zpos m / 2 ^ (- e) <= int_max k)
        by (apply Z.div_le_upper_bound; [exact HK | lia]); lia.
Qed.

Lemma numeric_write_eq (k : int_kind) (x : spec_float) (w : BinWriter.t) :
  Numeric.write k x w
  = if Numeric.rejects k x
    then (inl (ERR_OUT_OF_RANGE Value), w)
    else (inr tt,
          {| BinWriter.buffer :=
               BinWriter.buffer w ++ le_bytes (int_bytes k) (Numeric.ToInteger x) |}).
Proof.
  unfold Numeric.rejects.
  destruct k; cbn [Numeric.write int_bytes le_bytes int_min int_max];
    unfold Numeric.writeUInt8, Numeric.writeInt8, Numeric.writeUInt16,
      Numeric.writeInt16, Numeric.writeUInt32, Numeric.writeInt32,
      BinWriter.append, bind, eval, assign,
      Numeric.writeU_Int8, Numeric.writeU_Int16LE, Numeric.writeU_Int32LE,
      Numeric.checkInt;
    match goal with
    | |- context [if ?c then inl _ else _] =>
        match goal with
        | |- _ = (if ?c' then _ else _) => change c' with c; destruct c
        end
    | |- context [if ?c then Some _ else _] =>
        match goal with
        | |- _ = (if ?c' then _ else _) => change c' with c; destruct c
        end
    end; try reflexivity.
  all: rewrite ?store2, ?store4;
    rewrite ?ToUint8_ushr3, ?ToUint8_ushr2, ?ToUint8_ushr1;
    change (NodeBuffer.checkBounds (NodeBuffer.alloc 2) 0 1) with (@None error);
    change (NodeBuffer.checkBounds (NodeBuffer.alloc 4) 0 3) with (@None error);
    cbv iota;
    rewrite concat_pair; reflexivity.
Qed.

(** On an integer the methods on numbers are the methods on [Z]. *)
Lemma numeric_rejects_integer (k : int_kind) (x : spec_float) :
  Numeric.is_integer x = true ->
  Numeric.rejects k x = negb (in_range k (Numeric.ToInteger x)).
Proof.
  unfold Numeric.rejects, Numeric.gt, Numeric.lt, in_range.
  set (lo := int_min k). set (hi := int_max k).
  destruct x as [s | s | | s m e]; cbn [Numeric.is_integer]; try discriminate;
    cbn [Numeric.compare Numeric.ToInteger]; intros Hint.
  - destruct (Z.compare_spec 0 hi), (Z.compare_spec 0 lo),
      (Z.leb_spec lo 0), (Z.leb_spec 0 hi); cbn; try reflexivity; lia.
  - destruct (Z.leb_spec 0 e) as [He | He].
    + set (a := Zpos m * 2 ^ e).
      replace ((if s then Zneg m else Zpos m) * 2 ^ e) with (if s then - a else a)
        by (subst a; destruct s; lia).
      set (v := if s then - a else a).
      destruct (Z.compare_spec v hi), (Z.compare_spec v lo),
        (Z.leb_spec lo v), (Z.leb_spec v hi); cbn; try reflexivity; lia.
    + cbn [orb] in Hint. apply Z.eqb_eq in Hint.
      assert (HK : 0 < 2 ^ (- e)) by (apply Z.pow_pos_nonneg; lia).
      set (K := 2 ^ (- e)) in *.
      assert (Hm : Zpos m = K * (Zpos m / K))
        by (pose proof (Z.div_mod (Zpos m) K ltac:(lia)); lia).
      set (q := Zpos m / K) in *.
      set (v := if s then - q else q).
      assert (Hv : (if s then Zneg m else Zpos m) = K * v)
        by (subst v; destruct s; lia).
      rewrite Hv.
      destruct (Z.compare_spec (K * v) (hi * K)), (Z.compare_spec (K * v) (lo * K)),
        (Z.leb_spec lo v), (Z.leb_spec v hi); cbn; try reflexivity; nia.
Qed.

Lemma numeric_write_integer (k : int_kind) (x : spec_float) (w : BinWriter.t) :
  Numeric.is_integer x = true ->
  Numeric.write k x w = do_write (write_int k (Numeric.ToInteger x)) w.
Proof.
  intros Hint. rewrite numeric_write_eq, write_int_eq, numeric_rejects_integer by exact Hint.
  destruct (in_range k (Numeric.ToInteger x)); reflexivity.
Qed.

(** What the writer does with 1.5, NaN, 255.5, -0.5 and 256 as unsigned
    bytes, and with -1.5 as a signed 16-bit integer. *)
Example numeric_write_examples :
  Numeric.writeUInt8 (S754_finite false 3 (-1)) BinWriter.new
  = (inr tt, {| BinWriter.buffer := [x01] |})
  /\ Numeric.writeUInt8 S754_nan BinWriter.new
     = (inr tt, {| BinWriter.buffer := [x00] |})
  /\ Numeric.writeUInt8 (S754_finite false 511 (-1)) BinWriter.new
     = (inl (ERR_OUT_OF_RANGE Value), BinWriter.new)
  /\ Numeric.writeUInt8 (S754_finite true 1 (-1)) BinWriter.new
     = (inl (ERR_OUT_OF_RANGE Value), BinWriter.new)
  /\ Numeric.writeUInt8 (S754_finite false 1 8) BinWriter.new
     = (inl (ERR_OUT_OF_RANGE Value), BinWriter.new)
  /\ Numeric.writeInt16 (S754_finite true 3 (-1)) BinWriter.new
     = (inr tt, {| BinWriter.buffer := [xff; xff] |}).
Proof. repeat split. Qed.

(** C3 (amended): a fixed-width integer write throws an out-of-range
    error, and leaves the buffer as it was, exactly when the value is
    greater than the largest or less than the smallest integer of its
    width; an integer outside the range is rejected, not truncated.  For
    every other number (an integer in range, a number with a fraction
    between the bounds, NaN) it returns, having appended the
    little-endian two's complement bytes of the value with its fraction
    dropped, NaN counting as 0: for a representable value, its exact
    encoding.  The float32 and double writes return for every number. *)
Theorem fixed_write_contract (k : int_kind) (v : Z) (x : spec_float) (w : BinWriter.t) :
  do_write (write_int k v) w
  = (if in_range k v
     then (inr tt,
           {| BinWriter.buffer := BinWriter.buffer w ++ le_bytes (int_bytes k) v |})
     else (inl (ERR_OUT_OF_RANGE Value), w))
  /\ Numeric.write k x w
     = (if Numeric.gt x (int_max k) || Numeric.lt x (int_min k)
        then (inl (ERR_OUT_OF_RANGE Value), w)
        else (inr tt,
              {| BinWriter.buffer :=
                   BinWriter.buffer w
                   ++ le_bytes (int_bytes k) (Numeric.ToInteger x) |}))
  /\ (Numeric.gt x (int_max k) || Numeric.lt x (int_min k))
     || in_range k (Numeric.ToInteger x) = true
  /\ do_write (WriteFloat32 x) w
     = (inr tt,
        {| BinWriter.buffer :=
             BinWriter.buffer w
             ++ le_bytes 4 (IEEE754.bits_of_single (IEEE754.to_single x)) |})
  /\ do_write (WriteDouble x) w
     = (inr tt,
        {| BinWriter.buffer :=
             BinWriter.buffer w ++ le_bytes 8 (IEEE754.bits_of_double x) |}).
Proof.
  split; [apply write_int_eq |].
  split; [apply numeric_write_eq |].
  split.
  { destruct (Numeric.gt x (int_max k) || Numeric.lt x (int_min k)) eqn:E;
      [reflexivity | apply numeric_in_range; exact E]. }
  split; [apply writeFloat32_eq | apply writeDouble_eq].
Qed.

(** C6: over every sequence of writes that all return, the buffer is the
    buffer before the sequence followed by new bytes, as many as the sum
    of the widths of the values written; in particular one write appends
    exactly its width and leaves the earlier bytes as they were, and from
    a fresh writer the length is the sum of the widths written so far. *)
Theorem writes_append (ops : list write_op) (w0 w : BinWriter.t) :
  run do_write ops w0 = Some w ->
  (exists tail,
      BinWriter.buffer w = BinWriter.buffer w0 ++ tail
      /\ NodeBuffer.length tail = total_width ops)
  /\ NodeBuffer.length (BinWriter.buffer w)
     = NodeBuffer.length (BinWriter.buffer w0) + total_width ops
  /\ NodeBuffer.length (BinWriter.buffer BinWriter.new) = 0.
Proof.
  intros Hrun.
  assert (Htail : exists tail,
             BinWriter.buffer w = BinWriter.buffer w0 ++ tail
             /\ NodeBuffer.length tail = total_width ops).
  { revert w0 Hrun. induction ops as [| op rest IH]; intros w0 Hrun.
    - injection Hrun as <-. exists []. rewrite app_nil_r. split; reflexivity.
    - cbn [run] in Hrun. destruct (do_write op w0) as [[e | []] w1] eqn:E;
        [discriminate |].
      destruct (write_appends _ _ _ E) as (chunk & Hbuf & Hlen).
      destruct (IH _ Hrun) as (tail & Hbuf' & Hlen').
      exists (chunk ++ tail). split.
      + rewrite Hbuf', Hbuf, app_assoc. reflexivity.
      + unfold total_width in *. cbn [map fold_right]. rewrite <- Hlen, <- Hlen'.
        unfold NodeBuffer.length. rewrite length_app. lia. }
  split; [exact Htail |]. split; [| reflexivity].
  destruct Htail as (tail & -> & <-).
  unfold NodeBuffer.length. rewrite length_app. lia.
Qed.

Lemma writes_append_witness :
  run do_write [WriteUInt16 0xdead; WriteUInt16 0xbeef] BinWriter.new
  = Some {| BinWriter.buffer := [xad; xde; xef; xbe] |}
  /\ NodeBuffer.length [xad; xde; xef; xbe]
     = NodeBuffer.length (BinWriter.buffer BinWriter.new)
       + total_width [WriteUInt16 0xdead; WriteUInt16 0xbeef].
Proof.
  split; [reflexivity |].
  apply (writes_append [WriteUInt16 0xdead; WriteUInt16 0xbeef] BinWriter.new
                       {| BinWriter.buffer := [xad; xde; xef; xbe] |}).
  reflexivity.
Defined.

(** C9: on a fresh writer [writeInt8(2)] appends the byte [02] and
    [writeInt8(-2)] appends the byte [fe]. *)
Theorem writeInt8_two_and_minus_two :
  BinWriter.writeInt8 2 BinWriter.new = (inr tt, {| BinWriter.buffer := [x02] |})
  /\ BinWriter.writeInt8 (-2) BinWriter.new = (inr tt, {| BinWriter.buffer := [xfe] |})
  /\ run do_write [WriteInt8 2; WriteInt8 (-2)] BinWriter.new
     = Some {| BinWriter.buffer := [x02; xfe] |}.
Proof. repeat split. Qed.

(** The number [number_123_456] is a binary64 datum and lies within half
    a unit in the last place, [2 ^ -47], of 123456 / 1000. *)
Lemma number_123_456_nearest :
  IEEE754.valid_double number_123_456 = true
  /\ 2 * Z.abs (1000 * 0x1EDD2F1A9FBE77 - 123456 * 2 ^ 46) <= 1000.
Proof. split; [reflexivity | vm_compute; discriminate]. Qed.

(** C8: the concrete encodings.  [writeUInt32(0xFEEDFACE)] gives
    [ce fa ed fe]; [writeDouble(123.456)] gives [77 be 9f 1a 2f dd 5e 40];
    [readInt16] over [04 03] returns 772; every fixed-width read over an
    empty buffer throws [OutOfBounds]. *)
Theorem concrete_encodings :
  BinWriter.writeUInt32 0xFEEDFACE BinWriter.new
  = (inr tt, {| BinWriter.buffer := [xce; xfa; xed; xfe] |})
  /\ BinWriter.writeDouble number_123_456 BinWriter.new
     = (inr tt, {| BinWriter.buffer := [x77; xbe; x9f; x1a; x2f; xdd; x5e; x40] |})
  /\ BinReader.readInt16 (BinReader.new [x04; x03])
     = (inr 772, BinReader.new_at [x04; x03] 2)
  /\ Forall (fun op =>
               exists e,
                 do_read op (BinReader.new []) = (inl e, BinReader.new [])
                 /\ OutOfBounds e)
            [ReadUInt8; ReadInt8; ReadUInt16; ReadInt16; ReadUInt32; ReadInt32;
             ReadFloat32; ReadDouble].
Proof.
  split; [reflexivity |]. split; [vm_compute; reflexivity |].
  split; [reflexivity |].
  repeat constructor;
    (exists ERR_BUFFER_OUT_OF_BOUNDS; split; [reflexivity | right; reflexivity]).
Qed.

(** ** Reading back what was written: integers and byte spans *)

Lemma byte_to_Z_ToUint8 (z : Z) : byte_to_Z (ToUint8 z) = z mod 256.
Proof.
  unfold byte_to_Z, ToUint8.
  assert (Hz : 0 <= z mod 256 < 256) by (apply Z.mod_pos_bound; lia).
  destruct (Byte.of_N (Z.to_N (z mod 256))) as [b |] eqn:E.
  - apply Byte.to_of_N in E. rewrite E. lia.
  - apply Byte.of_N_None_iff in E. lia.
Qed.

Section Bits.
Variable k : Z.
Hypothesis Hk : 0 <= k.

Lemma testbit_above (v n : Z) : 0 <= v < 2 ^ k -> k <= n -> Z.testbit v n = false.
Proof.
  intros Hv Hn. destruct (Z.eq_dec v 0) as [-> | Hne]; [apply Z.bits_0 |].
  apply Z.bits_above_log2; [lia |].
  assert (Z.log2 v < k) by (apply Z.log2_lt_pow2; lia). lia.
Qed.

Lemma land_neg_pow2 (v : Z) : 0 <= v < 2 ^ k -> Z.land v (- 2 ^ k) = 0.
Proof.
  intros Hv. apply Z.bits_inj'. intros n Hn.
  rewrite Z.land_spec, Z.bits_0.
  destruct (Z.lt_ge_cases n k) as [Hlt | Hge].
  - replace (- 2 ^ k) with (-1 * 2 ^ k) by lia.
    rewrite Z.mul_pow2_bits_low by assumption. apply andb_false_r.
  - rewrite (testbit_above v n) by assumption. reflexivity.
Qed.

Lemma lor_neg_pow2 (v : Z) : 0 <= v < 2 ^ k -> Z.lor v (- 2 ^ k) = v - 2 ^ k.
Proof.
  intros Hv. pose proof (Z.add_lor_land v (- 2 ^ k)) as H.
  rewrite land_neg_pow2 in H by assumption. lia.
Qed.

Lemma land_pow2_low (v : Z) : 0 <= v < 2 ^ k -> Z.land v (2 ^ k) = 0.
Proof.
  intros Hv. apply Z.bits_inj'. intros n Hn.
  rewrite Z.land_spec, Z.bits_0, Z.pow2_bits_eqb by assumption.
  destruct (Z.eqb_spec k n) as [<- | Hne]; [| apply andb_false_r].
  rewrite (testbit_above v k) by (assumption || lia). reflexivity.
Qed.

Lemma land_pow2_high (v : Z) : 2 ^ k <= v < 2 ^ (k + 1) -> Z.land v (2 ^ k) = 2 ^ k.
Proof.
  intros Hv. rewrite Z.pow_add_r, Z.pow_1_r in Hv by lia.
  assert (Hbit : Z.testbit v k = true).
  { apply Z.testbit_true; [assumption |].
    replace (v / 2 ^ k) with 1; [reflexivity |].
    apply Z.div_unique with (v - 2 ^ k); lia. }
  apply Z.bits_inj'. intros n Hn.
  rewrite Z.land_spec, Z.pow2_bits_eqb by assumption.
  destruct (Z.eqb_spec k n) as [<- | Hne]; [| apply andb_false_r].
  rewrite Hbit. reflexivity.
Qed.
End Bits.

Lemma ToInt32_small (z : Z) : - 2 ^ 31 <= z < 2 ^ 31 -> ToInt32 z = z.
Proof.
  intros Hz. unfold ToInt32.
  rewrite Z.mod_small; [lia |].
  change (2 ^ 32) with (2 ^ 31 + 2 ^ 31). lia.
Qed.

(** Sign extension as the 8- and 16-bit signed reads compute it. *)
Lemma sign_extend_8 (val : Z) :
  0 <= val < 2 ^ 8 ->
  js_or val (js_and val (2 ^ 7) * 0x1fffffe)
  = if val <? 2 ^ 7 then val else val - 2 ^ 8.
Proof.
  intros Hval. unfold js_or, js_and.
  rewrite (ToInt32_small val) by (change (2 ^ 8) with 256 in Hval; change (2 ^ 31) with 2147483648; lia).
  change (ToInt32 (2 ^ 7)) with (2 ^ 7).
  destruct (Z.ltb_spec val (2 ^ 7)) as [Hlow | Hhigh].
  - rewrite land_pow2_low by lia.
    change (ToInt32 (0 * 33554430)) with 0. apply Z.lor_0_r.
  - rewrite land_pow2_high by (change (2 ^ (7 + 1)) with (2 ^ 8); lia).
    change (ToInt32 (2 ^ 7 * 33554430)) with (- 2 ^ 8).
    apply lor_neg_pow2; lia.
Qed.

Lemma sign_extend_16 (val : Z) :
  0 <= val < 2 ^ 16 ->
  js_or val (js_and val (2 ^ 15) * 0x1fffe)
  = if val <? 2 ^ 15 then val else val - 2 ^ 16.
Proof.
  intros Hval. unfold js_or, js_and.
  rewrite (ToInt32_small val) by (change (2 ^ 16) with 65536 in Hval; change (2 ^ 31) with 2147483648; lia).
  change (ToInt32 (2 ^ 15)) with (2 ^ 15).
  destruct (Z.ltb_spec val (2 ^ 15)) as [Hlow | Hhigh].
  - rewrite land_pow2_low by lia.
    change (ToInt32 (0 * 131070)) with 0. apply Z.lor_0_r.
  - rewrite land_pow2_high by (change (2 ^ (15 + 1)) with (2 ^ 16); lia).
    change (ToInt32 (2 ^ 15 * 131070)) with (- 2 ^ 16).
    apply lor_neg_pow2; lia.
Qed.

Lemma js_shl_24 (last : Z) :
  0 <= last < 2 ^ 8 ->
  js_shl last 24
  = if last <? 2 ^ 7 then last * 2 ^ 24 else last * 2 ^ 24 - 2 ^ 32.
Proof.
  intros Hlast. unfold js_shl, ToInt32. change (24 mod 32) with 24.
  rewrite Z.shiftl_mul_pow2 by lia.
  change (2 ^ 31) with 2147483648 in *. change (2 ^ 32) with 4294967296 in *.
  change (2 ^ 24) with 16777216 in *. change (2 ^ 8) with 256 in *.
  change (2 ^ 7) with 128 in *.
  destruct (Z.ltb_spec last 128); Z.to_euclidean_division_equations; lia.
Qed.

Ltac pow_consts :=
  change (2 ^ 7) with 128 in *; change (2 ^ 8) with 256 in *;
  change (2 ^ 15) with 32768 in *; change (2 ^ 16) with 65536 in *;
  change (2 ^ 24) with 16777216 in *; change (2 ^ 31) with 2147483648 in *;
  change (2 ^ 32) with 4294967296 in *.

Lemma le_value_2 (v : Z) :
  v mod 256 + (v / 256) mod 256 * 256 = v mod 65536.
Proof. Z.to_euclidean_division_equations. lia. Qed.

Lemma le_value_3 (v : Z) :
  v mod 256 + (v / 256) mod 256 * 256 + (v / 256 / 256) mod 256 * 65536
  = v mod 16777216.
Proof. Z.to_euclidean_division_equations. lia. Qed.

Lemma le_value_top (v : Z) :
  - 2147483648 <= v < 4294967296 ->
  (v / 256 / 256 / 256) mod 256
  = if v <? 0 then v / 16777216 + 256 else v / 16777216.
Proof.
  intros Hv. destruct (Z.ltb_spec v 0); Z.to_euclidean_division_equations; lia.
Qed.

Lemma read_int_le_bytes (k : int_kind) (v : Z) :
  in_range k v = true ->
  do_read (read_int k) (BinReader.new (le_bytes (int_bytes k) v))
  = (inr (VInt v),
     moved (BinReader.new (le_bytes (int_bytes k) v)) (Z.of_nat (int_bytes k))).
Proof.
  unfold in_range. intros Hv. apply andb_true_iff in Hv as [Hmin Hmax].
  apply Z.leb_le in Hmin, Hmax.
  assert (Hbyte : forall z, 0 <= z mod 256 < 256)
    by (intros z; apply Z.mod_pos_bound; lia).
  destruct k; cbn [int_min int_max] in Hmin, Hmax;
    cbn [read_int int_bytes le_bytes do_read];
    unfold returning, BinReader.readUInt8, BinReader.readInt8,
      BinReader.readUInt16, BinReader.readInt16, BinReader.readUInt32,
      BinReader.readInt32, BinReader.advance, bind, eval, assign, ret, moved,
      BinReader.new;
    cbn [BinReader.buffer BinReader.position].
  - (* UInt8 *)
    change (NodeBuffer.readUInt8 [ToUint8 v] 0) with (@inr error Z (byte_to_Z (ToUint8 v))).
    cbv iota. rewrite byte_to_Z_ToUint8, Z.mod_small by (pow_consts; lia). reflexivity.
  - (* Int8 *)
    change (NodeBuffer.readInt8 [ToUint8 v] 0)
      with (@inr error Z (js_or (byte_to_Z (ToUint8 v))
                                (js_and (byte_to_Z (ToUint8 v)) (2 ^ 7) * 0x1fffffe))).
    cbv iota. rewrite byte_to_Z_ToUint8, sign_extend_8 by apply Hbyte.
    repeat f_equal. pow_consts.
    destruct (Z.ltb_spec (v mod 256) 128); Z.to_euclidean_division_equations; lia.
  - (* UInt16 *)
    change (NodeBuffer.readUInt16LE [ToUint8 v; ToUint8 (v / 2 ^ 8)] 0)
      with (@inr error Z (byte_to_Z (ToUint8 v) + byte_to_Z (ToUint8 (v / 2 ^ 8)) * 2 ^ 8)).
    cbv iota. rewrite !byte_to_Z_ToUint8. pow_consts.
    rewrite le_value_2, Z.mod_small by lia. reflexivity.
  - (* Int16 *)
    change (NodeBuffer.readInt16LE [ToUint8 v; ToUint8 (v / 2 ^ 8)] 0)
      with (@inr error Z
              (js_or (byte_to_Z (ToUint8 v) + byte_to_Z (ToUint8 (v / 2 ^ 8)) * 2 ^ 8)
                     (js_and (byte_to_Z (ToUint8 v) + byte_to_Z (ToUint8 (v / 2 ^ 8)) * 2 ^ 8)
                             (2 ^ 15) * 0x1fffe))).
    cbv iota. rewrite !byte_to_Z_ToUint8.
    change (2 ^ 8) with 256. rewrite le_value_2.
    rewrite sign_extend_16 by (apply Z.mod_pos_bound; lia).
    repeat f_equal. pow_consts.
    destruct (Z.ltb_spec (v mod 65536) 32768); Z.to_euclidean_division_equations; lia.
  - (* UInt32 *)
    change (NodeBuffer.readUInt32LE
              [ToUint8 v; ToUint8 (v / 2 ^ 8); ToUint8 (v / 2 ^ 8 / 2 ^ 8);
               ToUint8 (v / 2 ^ 8 / 2 ^ 8 / 2 ^ 8)] 0)
      with (@inr error Z
              (byte_to_Z (ToUint8 v)
               + byte_to_Z (ToUint8 (v / 2 ^ 8)) * 2 ^ 8
               + byte_to_Z (ToUint8 (v / 2 ^ 8 / 2 ^ 8)) * 2 ^ 16
               + byte_to_Z (ToUint8 (v / 2 ^ 8 / 2 ^ 8 / 2 ^ 8)) * 2 ^ 24)).
    cbv iota. rewrite !byte_to_Z_ToUint8. pow_consts.
    rewrite le_value_3, le_value_top by lia.
    repeat f_equal.
    destruct (Z.ltb_spec v 0); Z.to_euclidean_division_equations; lia.
  - (* Int32 *)
    change (NodeBuffer.readInt32LE
              [ToUint8 v; ToUint8 (v / 2 ^ 8); ToUint8 (v / 2 ^ 8 / 2 ^ 8);
               ToUint8 (v / 2 ^ 8 / 2 ^ 8 / 2 ^ 8)] 0)
      with (@inr error Z
              (byte_to_Z (ToUint8 v)
               + byte_to_Z (ToUint8 (v / 2 ^ 8)) * 2 ^ 8
               + byte_to_Z (ToUint8 (v / 2 ^ 8 / 2 ^ 8)) * 2 ^ 16
               + js_shl (byte_to_Z (ToUint8 (v / 2 ^ 8 / 2 ^ 8 / 2 ^ 8))) 24)).
    cbv iota. rewrite !byte_to_Z_ToUint8.
    rewrite js_shl_24 by apply Hbyte. pow_consts.
    rewrite le_value_3, le_value_top by lia.
    repeat f_equal.
    destruct (Z.ltb_spec v 0);
      [ destruct (Z.ltb_spec (v / 16777216 + 256) 128)
      | destruct (Z.ltb_spec (v / 16777216) 128) ];
      Z.to_euclidean_division_equations; lia.
Qed.

(** ** IEEE-754 data survive the trip through their bits *)

Lemma digits2_pos_bounds (m : positive) :
  2 ^ (Zpos (digits2_pos m) - 1) <= Zpos m < 2 ^ Zpos (digits2_pos m).
Proof.
  induction m as [p IH | p IH |]; cbn [digits2_pos].
  - rewrite Pos2Z.inj_succ.
    replace (Z.succ (Zpos (digits2_pos p)) - 1)
      with (Z.succ (Zpos (digits2_pos p) - 1)) by lia.
    rewrite !Z.pow_succ_r by lia. lia.
  - rewrite Pos2Z.inj_succ.
    replace (Z.succ (Zpos (digits2_pos p)) - 1)
      with (Z.succ (Zpos (digits2_pos p) - 1)) by lia.
    rewrite !Z.pow_succ_r by lia. lia.
  - cbn. lia.
Qed.

Lemma digits2_pos_le (m : positive) (n : Z) :
  0 <= n -> Zpos m < 2 ^ n -> Zpos (digits2_pos m) <= n.
Proof.
  intros Hn Hm. pose proof (digits2_pos_bounds m) as [Hlo _].
  assert (H : 2 ^ (Zpos (digits2_pos m) - 1) < 2 ^ n) by lia.
  apply Z.pow_lt_mono_r_iff in H; lia.
Qed.

Lemma digits2_pos_gt (m : positive) (n : Z) :
  0 <= n -> 2 ^ n <= Zpos m -> n < Zpos (digits2_pos m).
Proof.
  intros Hn Hm. pose proof (digits2_pos_bounds m) as [_ Hhi].
  assert (H : 2 ^ n < 2 ^ Zpos (digits2_pos m)) by lia.
  apply Z.pow_lt_mono_r_iff in H; lia.
Qed.

Section Interchange.
Variables prec emax ebits : Z.
Hypothesis Hprec : 2 <= prec.
Hypothesis Hebits : 1 <= ebits.
Hypothesis Hemax : 2 * emax = 2 ^ ebits.

Let P := 2 ^ IEEE754.mbits prec.
Let Q := 2 ^ ebits.

Lemma P_pos : 2 <= P.
Proof.
  unfold P, IEEE754.mbits.
  replace (prec - 1) with (Z.succ (prec - 2)) by lia.
  rewrite Z.pow_succ_r by lia.
  assert (0 < 2 ^ (prec - 2)) by (apply Z.pow_pos_nonneg; lia). lia.
Qed.

Lemma Q_pos : 2 <= Q.
Proof.
  unfold Q. replace ebits with (Z.succ (ebits - 1)) by lia.
  rewrite Z.pow_succ_r by lia.
  assert (0 < 2 ^ (ebits - 1)) by (apply Z.pow_pos_nonneg; lia). lia.
Qed.

Lemma join_eq (s : bool) (E M : Z) :
  IEEE754.join prec ebits s E M = (if s then Q * P else 0) + E * P + M.
Proof.
  unfold IEEE754.join, P, Q. rewrite Z.pow_add_r by (unfold IEEE754.mbits; lia).
  reflexivity.
Qed.

(** The three fields of a datum assembled by [join]. *)
Lemma join_fields (s : bool) (E M : Z) :
  0 <= E < Q -> 0 <= M < P ->
  let z := IEEE754.join prec ebits s E M in
  (z / P) mod Q = E /\ z mod P = M /\ (Q * P <=? z) = s
  /\ 0 <= z < 2 * (Q * P).
Proof.
  intros HE HM z. subst z. rewrite join_eq.
  pose proof P_pos as HP. pose proof Q_pos as HQ.
  set (S := if s then 1 else 0).
  assert (HS : 0 <= S <= 1) by (subst S; destruct s; lia).
  replace ((if s then Q * P else 0) + E * P + M)
    with (P * (S * Q + E) + M) by (subst S; destruct s; ring).
  assert (Hdiv : (P * (S * Q + E) + M) / P = S * Q + E).
  { symmetry. apply Z.div_unique with M; [lia | reflexivity]. }
  assert (HEP : 0 <= E * P <= (Q - 1) * P) by nia.
  repeat split.
  - rewrite Hdiv. symmetry. apply Z.mod_unique with S; [lia | ring].
  - symmetry. apply Z.mod_unique with (S * Q + E); [lia | reflexivity].
  - subst S. destruct s.
    + apply Z.leb_le. nia.
    + apply Z.leb_gt. nia.
  - nia.
  - nia.
Qed.

Lemma float_of_bits_join (s : bool) (E M : Z) :
  0 <= E < Q -> 0 <= M < P ->
  IEEE754.float_of_bits prec emax ebits (IEEE754.join prec ebits s E M)
  = if E =? 0 then
      match M with
      | Zpos p => S754_finite s p (emin prec emax)
      | _ => S754_zero s
      end
    else if E =? Q - 1 then
      if M =? 0 then S754_infinity s else S754_nan
    else
      match M + P with
      | Zpos p => S754_finite s p (E + emin prec emax - 1)
      | _ => S754_nan
      end.
Proof.
  intros HE HM.
  destruct (join_fields s E M HE HM) as (Hexp & Hman & Hsign & _).
  unfold IEEE754.float_of_bits.
  rewrite Z.pow_add_r by (unfold IEEE754.mbits; lia).
  fold P Q. rewrite Hexp, Hman, Hsign. reflexivity.
Qed.

Lemma bits_of_float_range (x : spec_float) :
  valid_binary prec emax x = true ->
  exists s E M,
    IEEE754.bits_of_float prec emax ebits x = IEEE754.join prec ebits s E M
    /\ 0 <= E < Q /\ 0 <= M < P
    /\ IEEE754.float_of_bits prec emax ebits (IEEE754.join prec ebits s E M) = x.
Proof.
  pose proof P_pos as HP. pose proof Q_pos as HQ.
  assert (Hhalf : 2 * 2 ^ (IEEE754.mbits prec - 1) = P).
  { unfold P, IEEE754.mbits.
    replace (prec - 1) with (Z.succ (prec - 1 - 1)) at 2 by lia.
    rewrite Z.pow_succ_r by lia. reflexivity. }
  assert (Hhalf_pos : 0 < 2 ^ (IEEE754.mbits prec - 1))
    by (apply Z.pow_pos_nonneg; unfold IEEE754.mbits; lia).
  intros Hvalid. destruct x as [s | s | | s m e]; cbn [IEEE754.bits_of_float].
  - exists s, 0, 0. repeat split; try lia.
    rewrite float_of_bits_join by lia. reflexivity.
  - exists s, (Q - 1), 0. fold Q. repeat split; try lia.
    rewrite float_of_bits_join by lia.
    destruct (Z.eqb_spec (Q - 1) 0); [lia |].
    rewrite Z.eqb_refl. reflexivity.
  - exists false, (Q - 1), (2 ^ (IEEE754.mbits prec - 1)). fold Q.
    repeat split; try lia.
    rewrite float_of_bits_join by lia.
    destruct (Z.eqb_spec (Q - 1) 0); [lia |].
    rewrite Z.eqb_refl.
    destruct (Z.eqb_spec (2 ^ (IEEE754.mbits prec - 1)) 0); [lia | reflexivity].
  - cbn [valid_binary] in Hvalid. unfold bounded, canonical_mantissa in Hvalid.
    apply andb_true_iff in Hvalid as [Hcanon Hbound].
    apply Z.eqb_eq in Hcanon. apply Z.leb_le in Hbound.
    unfold fexp in Hcanon. fold P.
    assert (Hemin : emin prec emax = 3 - emax - prec) by reflexivity.
    destruct (Z.ltb_spec (Zpos m) P) as [Hsub | Hnorm].
    + (* subnormal *)
      assert (Hd : Zpos (digits2_pos m) <= IEEE754.mbits prec)
        by (apply digits2_pos_le; [unfold IEEE754.mbits; lia | exact Hsub]).
      unfold IEEE754.mbits in Hd.
      exists s, 0, (Zpos m). repeat split; try lia.
      rewrite float_of_bits_join by lia. cbn [Z.eqb].
      f_equal. lia.
    + (* normal *)
      assert (Hd : IEEE754.mbits prec < Zpos (digits2_pos m))
        by (apply digits2_pos_gt; [unfold IEEE754.mbits; lia | exact Hnorm]).
      unfold IEEE754.mbits in Hd.
      assert (Hd' : Zpos (digits2_pos m) = prec) by lia.
      pose proof (digits2_pos_bounds m) as [_ Hhi]. rewrite Hd' in Hhi.
      assert (HP2 : 2 ^ prec = 2 * P).
      { unfold P, IEEE754.mbits.
        replace prec with (Z.succ (prec - 1)) at 1 by lia.
        rewrite Z.pow_succ_r by lia. reflexivity. }
      exists s, (e - emin prec emax + 1), (Zpos m - P).
      assert (HE : 0 < e - emin prec emax + 1 < Q - 1) by (unfold Q; lia).
      repeat split; try lia.
      rewrite float_of_bits_join by lia.
      destruct (Z.eqb_spec (e - emin prec emax + 1) 0); [lia |].
      destruct (Z.eqb_spec (e - emin prec emax + 1) (Q - 1)); [lia |].
      replace (Zpos m - P + P) with (Zpos m) by lia.
      f_equal. lia.
Qed.

(** Decoding the bits of a valid datum gives the datum back, and the
    bits fit the width of the format. *)
Lemma float_of_bits_of_float (x : spec_float) :
  valid_binary prec emax x = true ->
  IEEE754.float_of_bits prec emax ebits (IEEE754.bits_of_float prec emax ebits x) = x
  /\ 0 <= IEEE754.bits_of_float prec emax ebits x < 2 * (Q * P).
Proof.
  intros Hvalid.
  destruct (bits_of_float_range x Hvalid) as (s & E & M & -> & HE & HM & Hback).
  split; [exact Hback |]. apply (join_fields s E M HE HM).
Qed.
End Interchange.

(** ** A binary32 datum widened to binary64 narrows back to itself *)

Lemma iter_pos_iter {A : Type} (f : A -> A) (n : positive) (x : A) :
  iter_pos f n x = Pos.iter f x n.
Proof.
  revert x. induction n as [n IH | n IH |]; intros x; cbn [iter_pos Pos.iter].
  - rewrite !IH, <- !Pos.iter_swap. reflexivity.
  - rewrite !IH. reflexivity.
  - reflexivity.
Qed.

Lemma digits2_pos_shift (m sh : positive) :
  Zpos (digits2_pos (Pos.iter xO m sh)) = Zpos (digits2_pos m) + Zpos sh.
Proof.
  induction sh as [| sh IH] using Pos.peano_ind.
  - cbn [Pos.iter digits2_pos]. lia.
  - rewrite Pos.iter_succ. cbn [digits2_pos]. lia.
Qed.

Lemma shr_shift (m sh : positive) :
  iter_pos shr_1 sh
    {| shr_m := Zpos (Pos.iter xO m sh); shr_r := false; shr_s := false |}
  = {| shr_m := Zpos m; shr_r := false; shr_s := false |}.
Proof.
  rewrite iter_pos_iter.
  induction sh as [| sh IH] using Pos.peano_ind.
  - reflexivity.
  - rewrite (Pos.iter_succ sh _ shr_1), <- Pos.iter_swap.
    rewrite (Pos.iter_succ sh _ xO). cbn [shr_1 orb]. exact IH.
Qed.

Section Rounding.
Variables prec emax : Z.

(** Rounding a mantissa that carries [sh] trailing zero bits beyond a
    canonical one drops them and changes nothing else. *)
Lemma binary_round_aux_exact (s : bool) (m : positive) (e : Z) :
  bounded prec emax m e = true ->
  binary_round_aux prec emax s (Zpos m) e loc_Exact = S754_finite s m e.
Proof.
  intros Hb. unfold bounded, canonical_mantissa in Hb.
  apply andb_true_iff in Hb as [Hcanon Hbound]. apply Z.eqb_eq in Hcanon.
  unfold binary_round_aux, shr_fexp.
  cbn [Zdigits2 shr_record_of_loc]. rewrite Hcanon, Z.sub_diag.
  cbn [shr shr_m loc_of_shr_record round_nearest_even Zdigits2 shr_record_of_loc].
  rewrite Hcanon, Z.sub_diag. cbn [shr shr_m]. rewrite Hbound. reflexivity.
Qed.

Lemma binary_round_aux_shift (s : bool) (m sh : positive) (e : Z) :
  bounded prec emax m e = true ->
  binary_round_aux prec emax s (Zpos (Pos.iter xO m sh)) (e - Zpos sh) loc_Exact
  = S754_finite s m e.
Proof.
  intros Hb. pose proof Hb as Hb'. unfold bounded, canonical_mantissa in Hb'.
  apply andb_true_iff in Hb' as [Hcanon Hbound]. apply Z.eqb_eq in Hcanon.
  rewrite <- (binary_round_aux_exact s m e Hb).
  unfold binary_round_aux at 1. unfold shr_fexp at 1.
  cbn [Zdigits2 shr_record_of_loc]. rewrite digits2_pos_shift.
  replace (Zpos (digits2_pos m) + Zpos sh + (e - Zpos sh))
    with (Zpos (digits2_pos m) + e) by lia.
  rewrite Hcanon.
  replace (e - (e - Zpos sh)) with (Zpos sh) by lia.
  cbn [shr]. rewrite shr_shift.
  replace (e - Zpos sh + Zpos sh) with e by lia.
  cbn [shr_m loc_of_shr_record round_nearest_even].
  unfold binary_round_aux, shr_fexp at 2.
  cbn [Zdigits2 shr_record_of_loc]. rewrite Hcanon, Z.sub_diag.
  cbn [shr shr_m loc_of_shr_record round_nearest_even]. reflexivity.
Qed.
End Rounding.

Section Widen.
(** [prec1], [emax1]: the narrow format; [prec2], [emax2]: the wide one. *)
Variables prec1 emax1 prec2 emax2 : Z.
Hypothesis Hprec : prec1 < prec2.
Hypothesis Hemin : emin prec2 emax2 <= 1 + emin prec1 emax1 - prec2.
Hypothesis Hemax : emax1 - prec1 <= emax2 - prec2.

Lemma widen_finite (s : bool) (m : positive) (e : Z) :
  bounded prec1 emax1 m e = true ->
  exists sh,
    binary_round prec2 emax2 s m e
    = S754_finite s (Pos.iter xO m sh) (e - Zpos sh)
    /\ Zpos (digits2_pos (Pos.iter xO m sh)) = prec2.
Proof.
  intros Hb. unfold bounded, canonical_mantissa in Hb.
  apply andb_true_iff in Hb as [Hcanon Hbound].
  apply Z.eqb_eq in Hcanon. apply Z.leb_le in Hbound.
  unfold fexp in Hcanon.
  set (d := Zpos (digits2_pos m)) in *.
  assert (Hd : 0 < d) by (subst d; lia).
  assert (Hsh : exists sh, Zpos sh = prec2 - d).
  { exists (Z.to_pos (prec2 - d)). rewrite Z2Pos.id; lia. }
  destruct Hsh as [sh Hsh]. exists sh.
  assert (Hdig : Zpos (digits2_pos (Pos.iter xO m sh)) = prec2)
    by (rewrite digits2_pos_shift; fold d; lia).
  split; [| exact Hdig].
  unfold binary_round. fold d.
  assert (Hfexp : fexp prec2 emax2 (d + e) = e - Zpos sh) by (unfold fexp; lia).
  rewrite Hfexp. unfold shl_align.
  replace (e - Zpos sh - e) with (Zneg sh) by lia.
  apply binary_round_aux_exact.
  unfold bounded, canonical_mantissa. rewrite Hdig.
  apply andb_true_iff. split; [apply Z.eqb_eq; unfold fexp; lia | apply Z.leb_le; lia].
Qed.

Lemma narrow_widen (f : spec_float) :
  valid_binary prec1 emax1 f = true ->
  IEEE754.convert prec1 emax1 (IEEE754.convert prec2 emax2 f) = f
  /\ valid_binary prec2 emax2 (IEEE754.convert prec2 emax2 f) = true.
Proof.
  intros Hvalid. destruct f as [s | s | | s m e]; try (split; reflexivity).
  cbn [valid_binary] in Hvalid. cbn [IEEE754.convert].
  destruct (widen_finite s m e Hvalid) as (sh & -> & Hdig).
  pose proof Hvalid as Hb. unfold bounded, canonical_mantissa in Hb.
  apply andb_true_iff in Hb as [Hcanon Hbound].
  apply Z.eqb_eq in Hcanon. apply Z.leb_le in Hbound.
  split.
  - cbn [IEEE754.convert]. unfold binary_round. rewrite digits2_pos_shift.
    replace (Zpos (digits2_pos m) + Zpos sh + (e - Zpos sh))
      with (Zpos (digits2_pos m) + e) by lia.
    rewrite Hcanon. unfold shl_align.
    replace (e - (e - Zpos sh)) with (Zpos sh) by lia.
    apply binary_round_aux_shift. exact Hvalid.
  - cbn [valid_binary]. unfold bounded, canonical_mantissa. rewrite Hdig.
    unfold fexp in Hcanon |- *.
    rewrite digits2_pos_shift in Hdig.
    apply andb_true_iff. split; [apply Z.eqb_eq | apply Z.leb_le]; lia.
Qed.
End Widen.

Lemma to_single_to_double (f : spec_float) :
  IEEE754.valid_single f = true ->
  IEEE754.to_single (IEEE754.to_double f) = f
  /\ IEEE754.valid_double (IEEE754.to_double f) = true.
Proof.
  apply (narrow_widen 24 128 53 1024); [lia | cbv; discriminate | lia].
Qed.

Lemma double_of_bits_of_double (x : spec_float) :
  IEEE754.valid_double x = true ->
  IEEE754.double_of_bits (IEEE754.bits_of_double x) = x
  /\ 0 <= IEEE754.bits_of_double x < 2 ^ 64.
Proof.
  intros Hx.
  destruct (float_of_bits_of_float 53 1024 11) with (x := x) as [Hback Hrange];
    try (reflexivity || lia || exact Hx).
  split; [exact Hback | exact Hrange].
Qed.

Lemma single_of_bits_of_single (x : spec_float) :
  IEEE754.valid_single x = true ->
  IEEE754.single_of_bits (IEEE754.bits_of_single x) = x
  /\ 0 <= IEEE754.bits_of_single x < 2 ^ 32.
Proof.
  intros Hx.
  destruct (float_of_bits_of_float 24 128 8) with (x := x) as [Hback Hrange];
    try (reflexivity || lia || exact Hx).
  split; [exact Hback | exact Hrange].
Qed.

(** ** Reading back what was written: floats and byte spans *)

Lemma get_cons (x : byte) (tl : Buffer) (i : Z) :
  0 <= i -> NodeBuffer.get (x :: tl) (i + 1) = NodeBuffer.get tl i.
Proof.
  intros Hi. unfold NodeBuffer.get.
  destruct (Z.ltb_spec (i + 1) 0); [lia |].
  destruct (Z.ltb_spec i 0); [lia |].
  replace (Z.to_nat (i + 1)) with (S (Z.to_nat i)) by lia. reflexivity.
Qed.

Lemma le_bits_cons (x : byte) (tl : Buffer) (n : nat) (i : Z) :
  0 <= i ->
  NodeBuffer.le_bits (x :: tl) (i + 1) n = NodeBuffer.le_bits tl i n.
Proof.
  revert i. induction n as [| n IH]; intros i Hi; [reflexivity |].
  cbn [NodeBuffer.le_bits]. unfold NodeBuffer.at_.
  rewrite get_cons by assumption. rewrite IH by lia. reflexivity.
Qed.

Lemma le_bits_le_bytes (n : nat) (v : Z) :
  NodeBuffer.le_bits (le_bytes n v) 0 n = v mod 2 ^ (8 * Z.of_nat n).
Proof.
  revert v. induction n as [| n IH]; intros v.
  - cbn. rewrite Z.mod_1_r. reflexivity.
  - cbn [le_bytes NodeBuffer.le_bits].
    rewrite (le_bits_cons _ _ n 0) by lia. rewrite IH.
    change (NodeBuffer.at_ (ToUint8 v :: le_bytes n (v / 2 ^ 8)) 0)
      with (byte_to_Z (ToUint8 v)).
    rewrite byte_to_Z_ToUint8.
    replace (8 * Z.of_nat (S n)) with (8 + 8 * Z.of_nat n) by lia.
    rewrite Z.pow_add_r by lia.
    change (2 ^ 8) with 256.
    assert (0 < 2 ^ (8 * Z.of_nat n)) by (apply Z.pow_pos_nonneg; lia).
    rewrite Z.rem_mul_r by lia. reflexivity.
Qed.

Lemma get_le_bytes (n : nat) (v i : Z) :
  0 <= i < Z.of_nat n -> exists x, NodeBuffer.get (le_bytes n v) i = Some x.
Proof.
  intros Hi. destruct (get_Some (le_bytes n v) i) as (x & E & _).
  - rewrite length_le_bytes. exact Hi.
  - exists x. exact E.
Qed.

Lemma readDouble_le_bytes (x : spec_float) :
  IEEE754.valid_double x = true ->
  BinReader.readDouble (BinReader.new (le_bytes 8 (IEEE754.bits_of_double x)))
  = (inr x, moved (BinReader.new (le_bytes 8 (IEEE754.bits_of_double x))) 8).
Proof.
  intros Hx. destruct (double_of_bits_of_double x Hx) as [Hback Hrange].
  unfold BinReader.readDouble, BinReader.advance, bind, eval, assign, ret, moved,
    BinReader.new, NodeBuffer.readDoubleLE.
  cbn [BinReader.buffer BinReader.position].
  destruct (get_le_bytes 8 (IEEE754.bits_of_double x) 0) as [first ->]; [lia |].
  destruct (get_le_bytes 8 (IEEE754.bits_of_double x) (0 + 7)) as [last ->]; [lia |].
  rewrite le_bits_le_bytes.
  change (2 ^ (8 * Z.of_nat 8)) with (2 ^ 64).
  rewrite Z.mod_small by exact Hrange. rewrite Hback. reflexivity.
Qed.

Lemma readFloat32_le_bytes (f : spec_float) :
  IEEE754.valid_single f = true ->
  BinReader.readFloat32 (BinReader.new (le_bytes 4 (IEEE754.bits_of_single f)))
  = (inr (IEEE754.to_double f),
     moved (BinReader.new (le_bytes 4 (IEEE754.bits_of_single f))) 4).
Proof.
  intros Hf. destruct (single_of_bits_of_single f Hf) as [Hback Hrange].
  unfold BinReader.readFloat32, BinReader.advance, bind, eval, assign, ret, moved,
    BinReader.new, NodeBuffer.readFloatLE.
  cbn [BinReader.buffer BinReader.position].
  destruct (get_le_bytes 4 (IEEE754.bits_of_single f) 0) as [first ->]; [lia |].
  destruct (get_le_bytes 4 (IEEE754.bits_of_single f) (0 + 3)) as [last ->]; [lia |].
  rewrite le_bits_le_bytes.
  change (2 ^ (8 * Z.of_nat 4)) with (2 ^ 32).
  rewrite Z.mod_small by exact Hrange. rewrite Hback. reflexivity.
Qed.

Lemma subarray_all (b : Buffer) :
  NodeBuffer.subarray b 0 (0 + NodeBuffer.length b) = b.
Proof.
  rewrite subarray_span. pose proof (length_nonneg b) as Hlen.
  rewrite !from_end_nonneg by lia. unfold span, clamp.
  replace (Z.max 0 (Z.min 0 (NodeBuffer.length b))) with 0 by lia.
  replace (Z.max 0 (Z.min (0 + NodeBuffer.length b) (NodeBuffer.length b)))
    with (NodeBuffer.length b) by lia.
  cbn [Z.to_nat skipn]. rewrite Z.sub_0_r. unfold NodeBuffer.length.
  rewrite Nat2Z.id. apply firstn_all.
Qed.

(** C1: for every supported type and every value representable in it,
    writing the value with a fresh writer returns, and the corresponding
    single read on a reader over the writer's buffer returns the same
    value: the same integer, the same float datum (signed zeros and
    infinities included, NaN as NaN), the same bytes. *)
Theorem write_then_read (x : typed) :
  representable x ->
  exists w r,
    do_write (write_of x) BinWriter.new = (inr tt, w)
    /\ do_read (read_of x) (BinReader.new (BinWriter.buffer w))
       = (inr (value_of x), r).
Proof.
  intros Hx. destruct x as [k v | v | v | v]; cbn [representable] in Hx;
    cbn [write_of read_of value_of].
  - rewrite write_int_eq, Hx. eexists. eexists. split; [reflexivity |].
    cbn [BinWriter.buffer BinWriter.new NodeBuffer.alloc repeat app].
    apply read_int_le_bytes. exact Hx.
  - destruct Hx as (f & Hf & ->).
    destruct (to_single_to_double f Hf) as [Hnarrow _].
    cbn [do_write]. rewrite writeFloat32_eq, Hnarrow.
    eexists. eexists. split; [reflexivity |].
    cbn [BinWriter.buffer BinWriter.new NodeBuffer.alloc repeat app do_read].
    unfold returning, bind. rewrite (readFloat32_le_bytes f Hf). reflexivity.
  - cbn [do_write]. rewrite writeDouble_eq.
    eexists. eexists. split; [reflexivity |].
    cbn [BinWriter.buffer BinWriter.new NodeBuffer.alloc repeat app do_read].
    unfold returning, bind. rewrite (readDouble_le_bytes v Hx). reflexivity.
  - cbn [do_write]. rewrite writeBytes_eq.
    eexists. eexists. split; [reflexivity |].
    cbn [BinWriter.buffer BinWriter.new NodeBuffer.alloc repeat app].
    rewrite do_read_ReadBytes. cbn [BinReader.buffer BinReader.position BinReader.new].
    rewrite subarray_all. reflexivity.
Qed.

Lemma write_then_read_witness :
  representable (TFloat32 (S754_finite false 7142253050986496 (-21)))
  /\ exists w r,
       do_write (write_of (TFloat32 (S754_finite false 7142253050986496 (-21))))
                BinWriter.new
       = (inr tt, w)
       /\ do_read (read_of (TFloat32 (S754_finite false 7142253050986496 (-21))))
                  (BinReader.new (BinWriter.buffer w))
          = (inr (value_of (TFloat32 (S754_finite false 7142253050986496 (-21)))), r).
Proof.
  assert (H : representable (TFloat32 (S754_finite false 7142253050986496 (-21)))).
  { exists (S754_finite false 13303483 8). split; reflexivity. }
  split; [exact H |].
  apply (write_then_read (TFloat32 (S754_finite false 7142253050986496 (-21)))).
  exact H.
Defined.

(** * Further properties *)

(** ** Reads at any position *)

Lemma at_get (b : Buffer) (i v : Z) :
  NodeBuffer.get b i = Some v -> NodeBuffer.at_ b i = v.
Proof. unfold NodeBuffer.at_. intros ->. reflexivity. Qed.

Lemma at_range (b : Buffer) (i : Z) : 0 <= NodeBuffer.at_ b i < 256.
Proof.
  unfold NodeBuffer.at_. destruct (NodeBuffer.get b i) as [v |] eqn:E; [| lia].
  apply get_Some_inv in E. lia.
Qed.

Lemma get_at (b : Buffer) (i : Z) :
  0 <= i < NodeBuffer.length b -> NodeBuffer.get b i = Some (NodeBuffer.at_ b i).
Proof.
  intros Hi. destruct (get_Some b i Hi) as (v & E & _).
  rewrite (at_get _ _ _ E). exact E.
Qed.

Lemma le_bits_range (b : Buffer) (i : Z) (n : nat) :
  0 <= NodeBuffer.le_bits b i n < 2 ^ (8 * Z.of_nat n).
Proof.
  revert i. induction n as [| n IH]; intros i.
  - cbn. lia.
  - cbn [NodeBuffer.le_bits].
    replace (8 * Z.of_nat (S n)) with (8 + 8 * Z.of_nat n) by lia.
    rewrite Z.pow_add_r by lia. change (2 ^ 8) with 256.
    pose proof (at_range b i). pose proof (IH (i + 1)). nia.
Qed.

Lemma int_of_bits_unsigned (k : int_kind) (u : Z) :
  is_signed k = false -> int_of_bits k u = u.
Proof. unfold int_of_bits. intros ->. reflexivity. Qed.

Lemma read_int_at (k : int_kind) (r : BinReader.t) :
  has_bytes r (Z.of_nat (int_bytes k)) ->
  do_read (read_int k) r
  = (inr (VInt (int_of_bits k
                  (NodeBuffer.le_bits (BinReader.buffer r) (BinReader.position r)
                                      (int_bytes k)))),
     moved r (Z.of_nat (int_bytes k))).
Proof.
  destruct r as [b p]. unfold has_bytes, moved.
  cbn [BinReader.buffer BinReader.position]. intros [Hlo Hhi].
  assert (Hget : forall j, 0 <= j < Z.of_nat (int_bytes k) ->
                           NodeBuffer.get b (p + j) = Some (NodeBuffer.at_ b (p + j)))
    by (intros j Hj; apply get_at; lia).
  destruct k; cbn [int_bytes] in *; cbn [read_int do_read];
    unfold returning, BinReader.readUInt8, BinReader.readInt8,
      BinReader.readUInt16, BinReader.readInt16, BinReader.readUInt32,
      BinReader.readInt32, BinReader.advance, bind, eval, assign, ret,
      NodeBuffer.readUInt8, NodeBuffer.readInt8, NodeBuffer.readUInt16LE,
      NodeBuffer.readInt16LE, NodeBuffer.readUInt32LE, NodeBuffer.readInt32LE;
    cbn [BinReader.buffer BinReader.position NodeBuffer.le_bits];
    pose proof (Hget 0 ltac:(lia)) as H0; rewrite Z.add_0_r in H0; rewrite H0;
    try (rewrite (Hget 1) by lia); try (rewrite (Hget 3) by lia);
    cbv iota beta;
    replace (p + 1 + 1) with (p + 2) by lia;
    replace (p + 2 + 1) with (p + 3) by lia;
    pose proof (at_range b p) as R0; pose proof (at_range b (p + 1)) as R1;
    pose proof (at_range b (p + 2)) as R2; pose proof (at_range b (p + 3)) as R3;
    set (b0 := NodeBuffer.at_ b p) in *; set (b1 := NodeBuffer.at_ b (p + 1)) in *;
    set (b2 := NodeBuffer.at_ b (p + 2)) in *; set (b3 := NodeBuffer.at_ b (p + 3)) in *;
    do 3 f_equal.
  - (* UInt8 *) rewrite int_of_bits_unsigned by reflexivity. lia.
  - (* Int8 *)
    rewrite sign_extend_8 by (pow_consts; lia).
    unfold int_of_bits. cbn [is_signed int_bytes andb].
    change (2 ^ (8 * Z.of_nat 1 - 1)) with 128. pow_consts.
    destruct (Z.ltb_spec b0 128), (Z.leb_spec 128 (b0 + 256 * 0)); lia.
  - (* UInt16 *) rewrite int_of_bits_unsigned by reflexivity. pow_consts. lia.
  - (* Int16 *)
    rewrite sign_extend_16 by (pow_consts; lia).
    unfold int_of_bits. cbn [is_signed int_bytes andb].
    change (2 ^ (8 * Z.of_nat 2 - 1)) with 32768. pow_consts.
    destruct (Z.ltb_spec (b0 + b1 * 256) 32768),
      (Z.leb_spec 32768 (b0 + 256 * (b1 + 256 * 0))); lia.
  - (* UInt32 *) rewrite int_of_bits_unsigned by reflexivity. pow_consts. lia.
  - (* Int32 *)
    rewrite js_shl_24 by (pow_consts; lia).
    unfold int_of_bits. cbn [is_signed int_bytes andb].
    change (2 ^ (8 * Z.of_nat 4 - 1)) with 2147483648. pow_consts.
    destruct (Z.ltb_spec b3 128),
      (Z.leb_spec 2147483648 (b0 + 256 * (b1 + 256 * (b2 + 256 * (b3 + 256 * 0))))); lia.
Qed.

Lemma int_of_bits_in_range (k : int_kind) (u : Z) :
  0 <= u < 2 ^ (8 * Z.of_nat (int_bytes k)) ->
  in_range k (int_of_bits k u) = true.
Proof.
  unfold in_range, int_of_bits. intros Hu.
  apply andb_true_iff. rewrite !Z.leb_le.
  destruct k; cbn [int_bytes is_signed andb int_min int_max] in *;
    try change (2 ^ (8 * Z.of_nat 1 - 1)) with 128;
    try change (2 ^ (8 * Z.of_nat 2 - 1)) with 32768;
    try change (2 ^ (8 * Z.of_nat 4 - 1)) with 2147483648;
    try change (2 ^ (8 * Z.of_nat 1)) with 256 in Hu;
    try change (2 ^ (8 * Z.of_nat 2)) with 65536 in Hu;
    try change (2 ^ (8 * Z.of_nat 4)) with 4294967296 in Hu;
    pow_consts;
    try match goal with
        | |- context [?a <=? ?b] => destruct (Z.leb_spec a b)
        end; lia.
Qed.

Lemma int_of_bits_mod (k : int_kind) (u : Z) :
  0 <= u < 2 ^ (8 * Z.of_nat (int_bytes k)) ->
  int_of_bits k u mod 2 ^ (8 * Z.of_nat (int_bytes k)) = u.
Proof.
  intros Hu. unfold int_of_bits.
  assert (H2 : 2 * 2 ^ (8 * Z.of_nat (int_bytes k) - 1)
               = 2 ^ (8 * Z.of_nat (int_bytes k))).
  { rewrite <- Z.pow_succ_r by (destruct k; cbn; lia). f_equal. lia. }
  rewrite H2.
  destruct (is_signed k && _)%bool.
  - replace (u - 2 ^ (8 * Z.of_nat (int_bytes k)))
      with (u + (-1) * 2 ^ (8 * Z.of_nat (int_bytes k))) by lia.
    rewrite Z.mod_add by lia. apply Z.mod_small. exact Hu.
  - apply Z.mod_small. exact Hu.
Qed.

Lemma int_of_bits_of_value (k : int_kind) (v : Z) :
  in_range k v = true ->
  int_of_bits k (v mod 2 ^ (8 * Z.of_nat (int_bytes k))) = v.
Proof.
  unfold in_range, int_of_bits. intros Hv.
  apply andb_true_iff in Hv as [Hmin Hmax]. apply Z.leb_le in Hmin, Hmax.
  destruct k; cbn [int_bytes is_signed andb int_min int_max] in *;
    try change (2 ^ (8 * Z.of_nat 1 - 1)) with 128;
    try change (2 ^ (8 * Z.of_nat 2 - 1)) with 32768;
    try change (2 ^ (8 * Z.of_nat 4 - 1)) with 2147483648;
    try change (2 ^ (8 * Z.of_nat 1)) with 256;
    try change (2 ^ (8 * Z.of_nat 2)) with 65536;
    try change (2 ^ (8 * Z.of_nat 4)) with 4294967296;
    pow_consts;
    try match goal with
        | |- context [?a <=? ?b] => destruct (Z.leb_spec a b)
        end; Z.to_euclidean_division_equations; lia.
Qed.

Lemma readDouble_at (r : BinReader.t) :
  has_bytes r 8 ->
  do_read ReadDouble r
  = (inr (VFloat (IEEE754.double_of_bits
                    (NodeBuffer.le_bits (BinReader.buffer r) (BinReader.position r) 8))),
     moved r 8).
Proof.
  destruct r as [b p]. unfold has_bytes, moved.
  cbn [BinReader.buffer BinReader.position]. intros [Hlo Hhi].
  cbn [do_read]. unfold returning, BinReader.readDouble, BinReader.advance,
    bind, eval, assign, ret, NodeBuffer.readDoubleLE.
  cbn [BinReader.buffer BinReader.position].
  rewrite (get_at b p), (get_at b (p + 7)) by lia. reflexivity.
Qed.

Lemma readFloat32_at (r : BinReader.t) :
  has_bytes r 4 ->
  do_read ReadFloat32 r
  = (inr (VFloat (IEEE754.to_double
                    (IEEE754.single_of_bits
                       (NodeBuffer.le_bits (BinReader.buffer r) (BinReader.position r) 4)))),
     moved r 4).
Proof.
  destruct r as [b p]. unfold has_bytes, moved.
  cbn [BinReader.buffer BinReader.position]. intros [Hlo Hhi].
  cbn [do_read]. unfold returning, BinReader.readFloat32, BinReader.advance,
    bind, eval, assign, ret, NodeBuffer.readFloatLE.
  cbn [BinReader.buffer BinReader.position].
  rewrite (get_at b p), (get_at b (p + 3)) by lia. reflexivity.
Qed.

(** ** Framing: bytes before and after the ones read do not matter *)

Lemma length_app_Z (a b : Buffer) :
  NodeBuffer.length (a ++ b) = NodeBuffer.length a + NodeBuffer.length b.
Proof. unfold NodeBuffer.length. rewrite length_app. lia. Qed.

Lemma get_app_l (b post : Buffer) (i : Z) :
  0 <= i < NodeBuffer.length b ->
  NodeBuffer.get (b ++ post) i = NodeBuffer.get b i.
Proof.
  unfold NodeBuffer.get, NodeBuffer.length. intros Hi.
  destruct (Z.ltb_spec i 0); [lia |].
  rewrite nth_error_app1 by lia. reflexivity.
Qed.

Lemma get_app_r (pre b : Buffer) (i : Z) :
  0 <= i ->
  NodeBuffer.get (pre ++ b) (NodeBuffer.length pre + i) = NodeBuffer.get b i.
Proof.
  unfold NodeBuffer.get, NodeBuffer.length. intros Hi.
  destruct (Z.ltb_spec (Z.of_nat (List.length pre) + i) 0); [lia |].
  destruct (Z.ltb_spec i 0); [lia |].
  rewrite nth_error_app2 by lia.
  replace (Z.to_nat (Z.of_nat (List.length pre) + i) - List.length pre)%nat
    with (Z.to_nat i) by lia.
  reflexivity.
Qed.

Lemma le_bits_ext (b1 b2 : Buffer) (i1 i2 : Z) (n : nat) :
  (forall j, 0 <= j < Z.of_nat n ->
             NodeBuffer.get b1 (i1 + j) = NodeBuffer.get b2 (i2 + j)) ->
  NodeBuffer.le_bits b1 i1 n = NodeBuffer.le_bits b2 i2 n.
Proof.
  revert i1 i2. induction n as [| n IH]; intros i1 i2 H; [reflexivity |].
  cbn [NodeBuffer.le_bits]. unfold NodeBuffer.at_.
  pose proof (H 0 ltac:(lia)) as H0. rewrite !Z.add_0_r in H0. rewrite H0.
  rewrite (IH (i1 + 1) (i2 + 1)); [reflexivity |].
  intros j Hj. replace (i1 + 1 + j) with (i1 + (1 + j)) by lia.
  replace (i2 + 1 + j) with (i2 + (1 + j)) by lia. apply H. lia.
Qed.

Lemma le_bits_frame (pre b post : Buffer) (n : nat) :
  Z.of_nat n <= NodeBuffer.length b ->
  NodeBuffer.le_bits (pre ++ b ++ post) (NodeBuffer.length pre) n
  = NodeBuffer.le_bits b 0 n.
Proof.
  intros Hn. apply le_bits_ext. intros j Hj.
  rewrite get_app_r by lia. rewrite get_app_l by lia. reflexivity.
Qed.

Lemma span_frame (pre b post : Buffer) :
  NodeBuffer.subarray (pre ++ b ++ post) (NodeBuffer.length pre)
                      (NodeBuffer.length pre + NodeBuffer.length b)
  = b.
Proof.
  rewrite subarray_span.
  pose proof (length_nonneg pre). pose proof (length_nonneg b).
  pose proof (length_nonneg post).
  rewrite !from_end_nonneg by lia. unfold span, clamp.
  rewrite !length_app_Z.
  replace (Z.max 0 (Z.min (NodeBuffer.length pre)
                          (NodeBuffer.length pre + (NodeBuffer.length b + NodeBuffer.length post))))
    with (NodeBuffer.length pre) by lia.
  replace (Z.max 0 (Z.min (NodeBuffer.length pre + NodeBuffer.length b)
                          (NodeBuffer.length pre + (NodeBuffer.length b + NodeBuffer.length post))))
    with (NodeBuffer.length pre + NodeBuffer.length b) by lia.
  replace (NodeBuffer.length pre + NodeBuffer.length b - NodeBuffer.length pre)
    with (NodeBuffer.length b) by lia.
  unfold NodeBuffer.length. rewrite !Nat2Z.id.
  rewrite skipn_app, skipn_all, Nat.sub_diag. cbn [skipn app].
  rewrite firstn_app, Nat.sub_diag, firstn_all. cbn [firstn]. apply app_nil_r.
Qed.

(** ** Sequences of values *)

Lemma read_width_read_int (k : int_kind) :
  read_width (read_int k) = Z.of_nat (int_bytes k).
Proof. destruct k; reflexivity. Qed.

Lemma write_typed (x : typed) (w : BinWriter.t) :
  representable x ->
  do_write (write_of x) w
  = (inr tt, {| BinWriter.buffer := BinWriter.buffer w ++ encoding x |}).
Proof.
  intros Hx. destruct x as [k v | v | v | v]; cbn [write_of encoding representable] in *.
  - rewrite write_int_eq, Hx. reflexivity.
  - apply writeFloat32_eq.
  - apply writeDouble_eq.
  - apply writeBytes_eq.
Qed.

Lemma read_typed_frame (x : typed) (pre post : Buffer) :
  representable x ->
  do_read (read_of x)
          (BinReader.new_at (pre ++ encoding x ++ post) (NodeBuffer.length pre))
  = (inr (value_of x),
     BinReader.new_at (pre ++ encoding x ++ post)
                      (NodeBuffer.length pre + NodeBuffer.length (encoding x))).
Proof.
  intros Hx.
  pose proof (length_nonneg pre) as Hpre. pose proof (length_nonneg post) as Hpost.
  assert (Hbytes : forall n v,
             has_bytes (BinReader.new_at (pre ++ le_bytes n v ++ post)
                                         (NodeBuffer.length pre))
                       (Z.of_nat n)).
  { intros n v. unfold has_bytes. cbn [BinReader.buffer BinReader.position].
    rewrite !length_app_Z, length_le_bytes. lia. }
  destruct x as [k v | v | v | v]; cbn [read_of encoding value_of representable] in *.
  - rewrite read_int_at by apply Hbytes.
    cbn [BinReader.buffer BinReader.position]. unfold moved.
    cbn [BinReader.buffer BinReader.position].
    rewrite le_bits_frame by (rewrite length_le_bytes; lia).
    rewrite le_bits_le_bytes, int_of_bits_of_value by exact Hx.
    rewrite length_le_bytes. reflexivity.
  - destruct Hx as (f & Hf & ->).
    destruct (to_single_to_double f Hf) as [Hnarrow _].
    destruct (single_of_bits_of_single f Hf) as [Hback Hrange].
    rewrite Hnarrow.
    rewrite readFloat32_at by apply (Hbytes 4%nat).
    cbn [BinReader.buffer BinReader.position]. unfold moved.
    cbn [BinReader.buffer BinReader.position].
    rewrite le_bits_frame by (rewrite length_le_bytes; lia).
    rewrite le_bits_le_bytes. change (2 ^ (8 * Z.of_nat 4)) with (2 ^ 32).
    rewrite Z.mod_small by exact Hrange. rewrite Hback, length_le_bytes. reflexivity.
  - destruct (double_of_bits_of_double v Hx) as [Hback Hrange].
    rewrite readDouble_at by apply (Hbytes 8%nat).
    cbn [BinReader.buffer BinReader.position]. unfold moved.
    cbn [BinReader.buffer BinReader.position].
    rewrite le_bits_frame by (rewrite length_le_bytes; lia).
    rewrite le_bits_le_bytes. change (2 ^ (8 * Z.of_nat 8)) with (2 ^ 64).
    rewrite Z.mod_small by exact Hrange. rewrite Hback, length_le_bytes. reflexivity.
  - rewrite do_read_ReadBytes. cbn [BinReader.buffer BinReader.position].
    rewrite span_frame. reflexivity.
Qed.

Lemma run_write_typed (xs : list typed) (w0 : BinWriter.t) :
  Forall representable xs ->
  run do_write (map write_of xs) w0
  = Some {| BinWriter.buffer := BinWriter.buffer w0 ++ flat_map encoding xs |}.
Proof.
  intros Hxs. revert w0. induction Hxs as [| x xs Hx Hxs IH]; intros w0.
  - cbn. rewrite app_nil_r. destruct w0. reflexivity.
  - cbn [map run flat_map]. rewrite (write_typed x w0 Hx). rewrite IH.
    cbn [BinWriter.buffer]. rewrite app_assoc. reflexivity.
Qed.

Lemma read_all_frame (xs : list typed) (pre post : Buffer) :
  Forall representable xs ->
  read_all (map read_of xs)
           (BinReader.new_at (pre ++ flat_map encoding xs ++ post)
                             (NodeBuffer.length pre))
  = Some (map value_of xs,
          BinReader.new_at (pre ++ flat_map encoding xs ++ post)
                           (NodeBuffer.length pre
                            + NodeBuffer.length (flat_map encoding xs))).
Proof.
  intros Hxs. revert pre. induction Hxs as [| x xs Hx Hxs IH]; intros pre.
  - cbn [map read_all flat_map]. change (NodeBuffer.length []) with 0.
    rewrite Z.add_0_r. reflexivity.
  - cbn [map read_all flat_map]. rewrite <- (app_assoc (encoding x)).
    rewrite (read_typed_frame x pre _ Hx).
    rewrite <- length_app_Z.
    replace (pre ++ encoding x ++ flat_map encoding xs ++ post)
      with ((pre ++ encoding x) ++ flat_map encoding xs ++ post)
      by (rewrite <- app_assoc; reflexivity).
    rewrite IH. rewrite !length_app_Z. rewrite Z.add_assoc. reflexivity.
Qed.

(** X1: values written one after the other are read back in the same
    order.  For any representable values, the writes all return; a reader
    placed where the writer started, over the writer's buffer followed by
    any further bytes, returns exactly those values and stops at the end
    of what was written. *)
Theorem write_all_then_read_all (xs : list typed) (w0 : BinWriter.t) (post : Buffer) :
  Forall representable xs ->
  exists w,
    run do_write (map write_of xs) w0 = Some w
    /\ read_all (map read_of xs)
                (BinReader.new_at (BinWriter.buffer w ++ post)
                                  (NodeBuffer.length (BinWriter.buffer w0)))
       = Some (map value_of xs,
               BinReader.new_at (BinWriter.buffer w ++ post)
                                (NodeBuffer.length (BinWriter.buffer w))).
Proof.
  intros Hxs. eexists. split; [apply run_write_typed; exact Hxs |].
  cbn [BinWriter.buffer]. rewrite <- app_assoc.
  rewrite (read_all_frame xs _ post Hxs). rewrite <- length_app_Z, app_assoc.
  reflexivity.
Qed.

Lemma write_all_then_read_all_witness :
  Forall representable [TInt UInt16 0xdead; TBytes [x01; x02]; TInt Int8 (-2)]
  /\ exists w,
       run do_write
           (map write_of [TInt UInt16 0xdead; TBytes [x01; x02]; TInt Int8 (-2)])
           BinWriter.new
       = Some w
       /\ read_all
            (map read_of [TInt UInt16 0xdead; TBytes [x01; x02]; TInt Int8 (-2)])
            (BinReader.new_at (BinWriter.buffer w ++ [])
                              (NodeBuffer.length (BinWriter.buffer BinWriter.new)))
          = Some (map value_of [TInt UInt16 0xdead; TBytes [x01; x02]; TInt Int8 (-2)],
                  BinReader.new_at (BinWriter.buffer w ++ [])
                                   (NodeBuffer.length (BinWriter.buffer w))).
Proof.
  assert (H : Forall representable
                     [TInt UInt16 0xdead; TBytes [x01; x02]; TInt Int8 (-2)]).
  { repeat constructor. }
  split; [exact H |].
  apply (write_all_then_read_all
           [TInt UInt16 0xdead; TBytes [x01; x02]; TInt Int8 (-2)] BinWriter.new []).
  exact H.
Defined.

(** ** Integer reads decode, and encode back to the bytes read *)

(** X2: an integer read with enough bytes left returns the integer that
    the bytes at [position] spell, least significant byte first: as an
    unsigned number for the unsigned types, in two's complement for the
    signed ones.  The result lies in the range of the type. *)
Theorem integer_read_decodes (k : int_kind) (r : BinReader.t) :
  has_bytes r (Z.of_nat (int_bytes k)) ->
  exists v,
    do_read (read_int k) r = (inr (VInt v), moved r (Z.of_nat (int_bytes k)))
    /\ v = int_of_bits k (NodeBuffer.le_bits (BinReader.buffer r)
                                             (BinReader.position r) (int_bytes k))
    /\ in_range k v = true
    /\ v mod 2 ^ (8 * Z.of_nat (int_bytes k))
       = NodeBuffer.le_bits (BinReader.buffer r) (BinReader.position r) (int_bytes k).
Proof.
  intros Hr. eexists. split; [apply read_int_at; exact Hr |].
  split; [reflexivity |].
  split; [apply int_of_bits_in_range | apply int_of_bits_mod]; apply le_bits_range.
Qed.

Lemma integer_read_decodes_witness :
  has_bytes (BinReader.new [xfe; xff]) (Z.of_nat (int_bytes Int16))
  /\ exists v,
       do_read (read_int Int16) (BinReader.new [xfe; xff])
       = (inr (VInt v), moved (BinReader.new [xfe; xff]) (Z.of_nat (int_bytes Int16)))
       /\ v = int_of_bits Int16 (NodeBuffer.le_bits
                                   (BinReader.buffer (BinReader.new [xfe; xff]))
                                   (BinReader.position (BinReader.new [xfe; xff]))
                                   (int_bytes Int16))
       /\ in_range Int16 v = true
       /\ v mod 2 ^ (8 * Z.of_nat (int_bytes Int16))
          = NodeBuffer.le_bits (BinReader.buffer (BinReader.new [xfe; xff]))
                               (BinReader.position (BinReader.new [xfe; xff]))
                               (int_bytes Int16).
Proof.
  assert (H : has_bytes (BinReader.new [xfe; xff]) (Z.of_nat (int_bytes Int16)))
    by (unfold has_bytes; cbn; lia).
  split; [exact H |].
  apply (integer_read_decodes Int16 (BinReader.new [xfe; xff])). exact H.
Defined.

Lemma ToUint8_byte_to_Z (x : byte) : ToUint8 (byte_to_Z x) = x.
Proof.
  unfold ToUint8. pose proof (byte_to_Z_range x) as Hx.
  rewrite Z.mod_small by exact Hx. unfold byte_to_Z.
  rewrite N2Z.id, Byte.of_to_N. reflexivity.
Qed.

Lemma skipn_cons_nth (b : Buffer) (i : nat) (x : byte) :
  nth_error b i = Some x -> skipn i b = x :: skipn (S i) b.
Proof.
  revert i. induction b as [| y tl IH]; intros [| i] H; try discriminate.
  - injection H as ->. reflexivity.
  - cbn [nth_error] in H. cbn [skipn]. apply IH. exact H.
Qed.

Lemma le_bytes_mod_eq (n : nat) (v v' : Z) :
  v mod 2 ^ (8 * Z.of_nat n) = v' mod 2 ^ (8 * Z.of_nat n) ->
  le_bytes n v = le_bytes n v'.
Proof.
  revert v v'. induction n as [| n IH]; intros v v' H; [reflexivity |].
  replace (8 * Z.of_nat (S n)) with (8 + 8 * Z.of_nat n) in H by lia.
  rewrite Z.pow_add_r in H by lia. change (2 ^ 8) with 256 in *.
  assert (HM : 0 < 2 ^ (8 * Z.of_nat n)) by (apply Z.pow_pos_nonneg; lia).
  rewrite !Z.rem_mul_r in H by lia.
  pose proof (Z.mod_pos_bound v 256 ltac:(lia)).
  pose proof (Z.mod_pos_bound v' 256 ltac:(lia)).
  pose proof (Z.mod_pos_bound (v / 256) _ HM).
  pose proof (Z.mod_pos_bound (v' / 256) _ HM).
  cbn [le_bytes]. change (2 ^ 8) with 256. f_equal.
  - apply ToUint8_mod. lia.
  - apply IH. lia.
Qed.

Lemma le_bytes_le_bits (b : Buffer) (n : nat) (p : Z) :
  0 <= p -> p + Z.of_nat n <= NodeBuffer.length b ->
  le_bytes n (NodeBuffer.le_bits b p n) = span b p (p + Z.of_nat n).
Proof.
  revert p. induction n as [| n IH]; intros p Hlo Hhi.
  - unfold span. replace (Z.to_nat (p + Z.of_nat 0 - p)) with 0%nat by lia.
    reflexivity.
  - cbn [NodeBuffer.le_bits le_bytes]. change (2 ^ 8) with 256.
    pose proof (at_range b p) as Hat.
    assert (Hget : NodeBuffer.get b p = Some (NodeBuffer.at_ b p))
      by (apply get_at; lia).
    unfold NodeBuffer.get in Hget. destruct (Z.ltb_spec p 0); [lia |].
    destruct (nth_error b (Z.to_nat p)) as [x |] eqn:Ex; [| discriminate].
    cbn [option_map] in Hget. injection Hget as Hx.
    replace (ToUint8 (NodeBuffer.at_ b p + 256 * NodeBuffer.le_bits b (p + 1) n))
      with x.
    2:{ transitivity (ToUint8 (byte_to_Z x)); [symmetry; apply ToUint8_byte_to_Z |].
        apply ToUint8_mod. rewrite Hx. Z.to_euclidean_division_equations. lia. }
    replace ((NodeBuffer.at_ b p + 256 * NodeBuffer.le_bits b (p + 1) n) / 256)
      with (NodeBuffer.le_bits b (p + 1) n)
      by (Z.to_euclidean_division_equations; lia).
    rewrite IH by lia. unfold span.
    replace (Z.to_nat (p + Z.of_nat (S n) - p)) with (S n) by lia.
    replace (Z.to_nat (p + 1 + Z.of_nat n - (p + 1))) with n by lia.
    rewrite (skipn_cons_nth b (Z.to_nat p) x Ex). cbn [firstn].
    replace (Z.to_nat (p + 1)) with (S (Z.to_nat p)) by lia. reflexivity.
Qed.

Lemma subarray_in_bounds (b : Buffer) (lo hi : Z) :
  0 <= lo -> lo <= hi -> hi <= NodeBuffer.length b ->
  NodeBuffer.subarray b lo hi = span b lo hi.
Proof.
  intros H1 H2 H3. rewrite subarray_span, !from_end_nonneg by lia.
  unfold clamp. f_equal; lia.
Qed.

(** X3: every byte pattern is a value, and writing the value read gives
    the bytes back.  An integer read with enough bytes left returns a
    value that the write of the same type accepts, and that write appends
    exactly the bytes that were read. *)
Theorem integer_read_then_write (k : int_kind) (r : BinReader.t) (w : BinWriter.t) :
  has_bytes r (Z.of_nat (int_bytes k)) ->
  exists v,
    do_read (read_int k) r = (inr (VInt v), moved r (Z.of_nat (int_bytes k)))
    /\ do_write (write_int k v) w
       = (inr tt,
          {| BinWriter.buffer :=
               BinWriter.buffer w
               ++ NodeBuffer.subarray (BinReader.buffer r) (BinReader.position r)
                    (BinReader.position r + Z.of_nat (int_bytes k)) |}).
Proof.
  intros Hr. eexists. split; [apply read_int_at; exact Hr |].
  destruct Hr as [Hlo Hhi].
  rewrite write_int_eq, int_of_bits_in_range by apply le_bits_range.
  rewrite subarray_in_bounds by lia.
  rewrite <- le_bytes_le_bits by lia.
  do 3 f_equal. apply le_bytes_mod_eq.
  rewrite int_of_bits_mod by apply le_bits_range.
  symmetry. apply Z.mod_small, le_bits_range.
Qed.

Lemma integer_read_then_write_witness :
  has_bytes (BinReader.new [x00; x80; x01]) (Z.of_nat (int_bytes Int16))
  /\ exists v,
       do_read (read_int Int16) (BinReader.new [x00; x80; x01])
       = (inr (VInt v),
          moved (BinReader.new [x00; x80; x01]) (Z.of_nat (int_bytes Int16)))
       /\ do_write (write_int Int16 v) BinWriter.new
          = (inr tt,
             {| BinWriter.buffer :=
                  BinWriter.buffer BinWriter.new
                  ++ NodeBuffer.subarray
                       (BinReader.buffer (BinReader.new [x00; x80; x01]))
                       (BinReader.position (BinReader.new [x00; x80; x01]))
                       (BinReader.position (BinReader.new [x00; x80; x01])
                        + Z.of_nat (int_bytes Int16)) |}).
Proof.
  assert (H : has_bytes (BinReader.new [x00; x80; x01]) (Z.of_nat (int_bytes Int16)))
    by (unfold has_bytes; cbn; lia).
  split; [exact H |].
  apply (integer_read_then_write Int16 (BinReader.new [x00; x80; x01]) BinWriter.new).
  exact H.
Defined.

(** ** Every bit pattern decodes to a valid datum *)

Lemma digits2_pos_eq (m : positive) (n : Z) :
  1 <= n -> 2 ^ (n - 1) <= Zpos m < 2 ^ n -> Zpos (digits2_pos m) = n.
Proof.
  intros Hn [Hlo Hhi].
  pose proof (digits2_pos_le m n ltac:(lia) Hhi).
  pose proof (digits2_pos_gt m (n - 1) ltac:(lia) Hlo). lia.
Qed.

Section Decoding.
Variables prec emax ebits : Z.
Hypothesis Hprec : 2 <= prec.
Hypothesis Hebits : 2 <= ebits.
Hypothesis Hemax : 2 * emax = 2 ^ ebits.

Let P := 2 ^ IEEE754.mbits prec.
Let Q := 2 ^ ebits.

Lemma P_ge_2 : 2 <= P.
Proof.
  unfold P, IEEE754.mbits.
  replace (prec - 1) with (Z.succ (prec - 2)) by lia.
  rewrite Z.pow_succ_r by lia.
  assert (0 < 2 ^ (prec - 2)) by (apply Z.pow_pos_nonneg; lia). lia.
Qed.

Lemma Q_ge_4 : 4 <= Q.
Proof.
  unfold Q. replace ebits with (Z.succ (Z.succ (ebits - 2))) by lia.
  rewrite !Z.pow_succ_r by lia.
  assert (0 < 2 ^ (ebits - 2)) by (apply Z.pow_pos_nonneg; lia). lia.
Qed.

Lemma P_twice : 2 ^ prec = 2 * P.
Proof.
  unfold P, IEEE754.mbits.
  replace prec with (Z.succ (prec - 1)) at 1 by lia.
  rewrite Z.pow_succ_r by lia. reflexivity.
Qed.

(** The fields of any datum of the format's width. *)
Lemma fields_join (z : Z) :
  0 <= z < 2 * (Q * P) ->
  z = IEEE754.join prec ebits (Q * P <=? z) ((z / P) mod Q) (z mod P).
Proof.
  intros Hz. pose proof P_ge_2 as HP. pose proof Q_ge_4 as HQ.
  unfold IEEE754.join. rewrite Z.pow_add_r by (unfold IEEE754.mbits; lia).
  fold P Q.
  pose proof (Z.div_mod z P ltac:(lia)) as Hz1.
  pose proof (Z.mod_pos_bound z P ltac:(lia)) as HM.
  set (a := z / P) in *. set (M := z mod P) in *.
  assert (Ha : 0 <= a < 2 * Q).
  { split; [subst a; apply Z.div_pos; lia |].
    subst a. apply Z.div_lt_upper_bound; [lia |]. nia. }
  pose proof (Z.div_mod a Q ltac:(lia)) as Ha1.
  pose proof (Z.mod_pos_bound a Q ltac:(lia)) as HE.
  set (c := a / Q) in *. set (E := a mod Q) in *.
  assert (Hc : c = 0 \/ c = 1) by nia.
  destruct Hc as [Hc | Hc]; rewrite Hc in Ha1.
  - destruct (Z.leb_spec (Q * P) z); [nia | nia].
  - destruct (Z.leb_spec (Q * P) z); [nia | nia].
Qed.

Lemma fields_range (z : Z) : 0 <= (z / P) mod Q < Q /\ 0 <= z mod P < P.
Proof.
  pose proof P_ge_2. pose proof Q_ge_4.
  split; apply Z.mod_pos_bound; lia.
Qed.

Lemma float_of_bits_valid (z : Z) :
  valid_binary prec emax (IEEE754.float_of_bits prec emax ebits z) = true.
Proof.
  pose proof P_ge_2 as HP. pose proof Q_ge_4 as HQ. pose proof P_twice as HP2.
  destruct (fields_range z) as [HE HM].
  unfold IEEE754.float_of_bits. fold P Q.
  set (E := (z / P) mod Q) in *. set (M := z mod P) in *.
  assert (Hemin : emin prec emax = 3 - emax - prec) by reflexivity.
  destruct (Z.eqb_spec E 0) as [HE0 | HE0].
  - destruct M as [| p | p] eqn:EM; try reflexivity.
    cbn [valid_binary]. unfold bounded, canonical_mantissa, fexp.
    assert (Hd : Zpos (digits2_pos p) <= IEEE754.mbits prec)
      by (apply digits2_pos_le; [unfold IEEE754.mbits; lia | fold P; lia]).
    unfold IEEE754.mbits in Hd. unfold Q in HQ.
    apply andb_true_iff. split; [apply Z.eqb_eq | apply Z.leb_le]; lia.
  - destruct (Z.eqb_spec E (Q - 1)) as [HE1 | HE1].
    + destruct (M =? 0); reflexivity.
    + destruct (M + P) as [| p | p] eqn:EM; try reflexivity.
      cbn [valid_binary]. unfold bounded, canonical_mantissa, fexp.
      assert (Hd : Zpos (digits2_pos p) = prec).
      { apply digits2_pos_eq; [lia |]. rewrite HP2.
        replace (2 ^ (prec - 1)) with P by reflexivity. lia. }
      rewrite Hd. unfold Q in *.
      apply andb_true_iff. split; [apply Z.eqb_eq | apply Z.leb_le]; lia.
Qed.

Lemma bits_of_float_of_bits (z : Z) :
  0 <= z < 2 * (Q * P) ->
  IEEE754.float_of_bits prec emax ebits z <> S754_nan ->
  IEEE754.bits_of_float prec emax ebits (IEEE754.float_of_bits prec emax ebits z) = z.
Proof.
  intros Hz. pose proof P_ge_2 as HP. pose proof Q_ge_4 as HQ.
  destruct (fields_range z) as [HE HM].
  rewrite (fields_join z Hz) at 3.
  unfold IEEE754.float_of_bits. fold P Q.
  replace (2 ^ (ebits + IEEE754.mbits prec)) with (Q * P)
    by (unfold P, Q; rewrite Z.pow_add_r by (unfold IEEE754.mbits; lia); reflexivity).
  set (s := Q * P <=? z). set (E := (z / P) mod Q) in *. set (M := z mod P) in *.
  destruct (Z.eqb_spec E 0) as [HE0 | HE0].
  - rewrite HE0. destruct M as [| p | p] eqn:EM; intros _; try lia.
    + reflexivity.
    + cbn [IEEE754.bits_of_float]. fold P.
      destruct (Z.ltb_spec (Zpos p) P); [reflexivity | lia].
  - destruct (Z.eqb_spec E (Q - 1)) as [HE1 | HE1].
    + destruct (Z.eqb_spec M 0) as [HM0 | HM0]; intros Hnan; [| congruence].
      cbn [IEEE754.bits_of_float]. fold Q. rewrite HE1, HM0. reflexivity.
    + destruct (M + P) as [| p | p] eqn:EM; intros _; try lia.
      cbn [IEEE754.bits_of_float]. fold P.
      destruct (Z.ltb_spec (Zpos p) P); [lia |].
      f_equal; lia.
Qed.
End Decoding.

Lemma double_of_bits_valid (z : Z) :
  IEEE754.valid_double (IEEE754.double_of_bits z) = true.
Proof. apply (float_of_bits_valid 53 1024 11); lia || reflexivity. Qed.

Lemma single_of_bits_valid (z : Z) :
  IEEE754.valid_single (IEEE754.single_of_bits z) = true.
Proof. apply (float_of_bits_valid 24 128 8); lia || reflexivity. Qed.

Lemma bits_of_double_of_bits (z : Z) :
  0 <= z < 2 ^ 64 ->
  IEEE754.double_of_bits z <> S754_nan ->
  IEEE754.bits_of_double (IEEE754.double_of_bits z) = z.
Proof. apply (bits_of_float_of_bits 53 1024 11); lia || reflexivity. Qed.

Lemma bits_of_single_of_bits (z : Z) :
  0 <= z < 2 ^ 32 ->
  IEEE754.single_of_bits z <> S754_nan ->
  IEEE754.bits_of_single (IEEE754.single_of_bits z) = z.
Proof. apply (bits_of_float_of_bits 24 128 8); lia || reflexivity. Qed.

(** ** Float reads return numbers, and encode back to the bytes read *)

(** X4: [readDouble] with eight bytes left returns a binary64 datum for
    every bit pattern; unless it is NaN, [writeDouble] of that number
    appends exactly the eight bytes that were read. *)
Theorem double_read_then_write (r : BinReader.t) (w : BinWriter.t) :
  has_bytes r 8 ->
  exists v,
    do_read ReadDouble r = (inr (VFloat v), moved r 8)
    /\ IEEE754.valid_double v = true
    /\ (v <> S754_nan ->
        do_write (WriteDouble v) w
        = (inr tt,
           {| BinWriter.buffer :=
                BinWriter.buffer w
                ++ NodeBuffer.subarray (BinReader.buffer r) (BinReader.position r)
                     (BinReader.position r + 8) |})).
Proof.
  intros Hr. eexists. split; [apply readDouble_at; exact Hr |].
  split; [apply double_of_bits_valid |].
  intros Hnan. destruct Hr as [Hlo Hhi].
  cbn [do_write]. rewrite writeDouble_eq.
  rewrite bits_of_double_of_bits by (exact Hnan || apply (le_bits_range _ _ 8)).
  rewrite subarray_in_bounds by lia.
  rewrite (le_bytes_le_bits _ 8) by (cbn; lia). reflexivity.
Qed.

Lemma double_read_then_write_witness :
  has_bytes (BinReader.new [x77; xbe; x9f; x1a; x2f; xdd; x5e; x40]) 8
  /\ exists v,
       do_read ReadDouble (BinReader.new [x77; xbe; x9f; x1a; x2f; xdd; x5e; x40])
       = (inr (VFloat v),
          moved (BinReader.new [x77; xbe; x9f; x1a; x2f; xdd; x5e; x40]) 8)
       /\ IEEE754.valid_double v = true
       /\ (v <> S754_nan ->
           do_write (WriteDouble v) BinWriter.new
           = (inr tt,
              {| BinWriter.buffer :=
                   BinWriter.buffer BinWriter.new
                   ++ NodeBuffer.subarray
                        (BinReader.buffer
                           (BinReader.new [x77; xbe; x9f; x1a; x2f; xdd; x5e; x40]))
                        (BinReader.position
                           (BinReader.new [x77; xbe; x9f; x1a; x2f; xdd; x5e; x40]))
                        (BinReader.position
                           (BinReader.new [x77; xbe; x9f; x1a; x2f; xdd; x5e; x40])
                         + 8) |})).
Proof.
  assert (H : has_bytes (BinReader.new [x77; xbe; x9f; x1a; x2f; xdd; x5e; x40]) 8)
    by (unfold has_bytes; cbn; lia).
  split; [exact H |].
  apply (double_read_then_write
           (BinReader.new [x77; xbe; x9f; x1a; x2f; xdd; x5e; x40]) BinWriter.new).
  exact H.
Defined.

Lemma to_double_nan (f : spec_float) :
  IEEE754.valid_single f = true ->
  IEEE754.to_double f <> S754_nan -> f <> S754_nan.
Proof. intros _ H ->. apply H. reflexivity. Qed.

(** X5: [readFloat32] with four bytes left returns, for every bit
    pattern, a binary64 datum that is the value of a binary32 datum;
    unless it is NaN, [writeFloat32] of that number appends exactly the
    four bytes that were read. *)
Theorem float32_read_then_write (r : BinReader.t) (w : BinWriter.t) :
  has_bytes r 4 ->
  exists v,
    do_read ReadFloat32 r = (inr (VFloat v), moved r 4)
    /\ IEEE754.valid_double v = true
    /\ representable (TFloat32 v)
    /\ (v <> S754_nan ->
        do_write (WriteFloat32 v) w
        = (inr tt,
           {| BinWriter.buffer :=
                BinWriter.buffer w
                ++ NodeBuffer.subarray (BinReader.buffer r) (BinReader.position r)
                     (BinReader.position r + 4) |})).
Proof.
  intros Hr. eexists. split; [apply readFloat32_at; exact Hr |].
  set (u := NodeBuffer.le_bits (BinReader.buffer r) (BinReader.position r) 4).
  pose proof (single_of_bits_valid u) as Hf.
  destruct (to_single_to_double _ Hf) as [Hnarrow Hvalid].
  split; [exact Hvalid |].
  split; [exists (IEEE754.single_of_bits u); split; [exact Hf | reflexivity] |].
  intros Hnan. apply (to_double_nan _ Hf) in Hnan. destruct Hr as [Hlo Hhi].
  cbn [do_write]. rewrite writeFloat32_eq, Hnarrow.
  rewrite bits_of_single_of_bits by (exact Hnan || apply (le_bits_range _ _ 4)).
  rewrite subarray_in_bounds by lia. subst u.
  rewrite (le_bytes_le_bits _ 4) by (cbn; lia). reflexivity.
Qed.

Lemma float32_read_then_write_witness :
  has_bytes (BinReader.new [xbb; xfe; x4a; x4f]) 4
  /\ exists v,
       do_read ReadFloat32 (BinReader.new [xbb; xfe; x4a; x4f])
       = (inr (VFloat v), moved (BinReader.new [xbb; xfe; x4a; x4f]) 4)
       /\ IEEE754.valid_double v = true
       /\ representable (TFloat32 v)
       /\ (v <> S754_nan ->
           do_write (WriteFloat32 v) BinWriter.new
           = (inr tt,
              {| BinWriter.buffer :=
                   BinWriter.buffer BinWriter.new
                   ++ NodeBuffer.subarray
                        (BinReader.buffer (BinReader.new [xbb; xfe; x4a; x4f]))
                        (BinReader.position (BinReader.new [xbb; xfe; x4a; x4f]))
                        (BinReader.position (BinReader.new [xbb; xfe; x4a; x4f]) + 4) |})).
Proof.
  assert (H : has_bytes (BinReader.new [xbb; xfe; x4a; x4f]) 4)
    by (unfold has_bytes; cbn; lia).
  split; [exact H |].
  apply (float32_read_then_write (BinReader.new [xbb; xfe; x4a; x4f]) BinWriter.new).
  exact H.
Defined.

(** ** [readBytes]: short reads and consecutive reads *)

Lemma length_span (b : Buffer) (lo hi : Z) :
  0 <= lo ->
  NodeBuffer.length (span b lo hi)
  = Z.max 0 (Z.min (hi - lo) (NodeBuffer.length b - lo)).
Proof.
  intros Hlo. unfold span, NodeBuffer.length.
  rewrite length_firstn, length_skipn. lia.
Qed.

Lemma get_span (b : Buffer) (lo hi i : Z) :
  0 <= lo -> 0 <= i < hi - lo ->
  NodeBuffer.get (span b lo hi) i = NodeBuffer.get b (lo + i).
Proof.
  intros Hlo Hi. unfold NodeBuffer.get, span.
  destruct (Z.ltb_spec i 0); [lia |]. destruct (Z.ltb_spec (lo + i) 0); [lia |].
  rewrite nth_error_firstn.
  destruct (Nat.ltb_spec (Z.to_nat i) (Z.to_nat (hi - lo))); [| lia].
  rewrite nth_error_skipn. f_equal. f_equal. lia.
Qed.

(** X6: a [readBytes] of a non-negative integer length from a
    non-negative integer position, the two and their sum being safe
    integers, returns [min(length, buffer.length - position)] bytes, none
    when the position is at or past the end, and they are the bytes of the
    buffer from [position] on; [position] moves by the full length asked
    for, also when fewer bytes were returned. *)
Theorem readBytes_short_read (r : BinReader.t) (n : Z) :
  0 <= BinReader.position r -> 0 <= n ->
  exact_advance r n = true ->
  exists v,
    BinReader.readBytes n r = (inr v, moved r n)
    /\ NodeBuffer.length v
       = Z.max 0 (Z.min n (NodeBuffer.length (BinReader.buffer r)
                           - BinReader.position r))
    /\ forall i, 0 <= i < NodeBuffer.length v ->
                 NodeBuffer.get v i
                 = NodeBuffer.get (BinReader.buffer r) (BinReader.position r + i).
Proof.
  intros Hpos Hn _. eexists. split; [apply readBytes_eq |].
  rewrite subarray_span, !from_end_nonneg by lia.
  pose proof (length_nonneg (BinReader.buffer r)) as Hlen.
  set (len := NodeBuffer.length (BinReader.buffer r)) in *.
  set (p := BinReader.position r) in *.
  assert (Hlength : NodeBuffer.length (span (BinReader.buffer r) (clamp len p)
                                            (clamp len (p + n)))
                    = Z.max 0 (Z.min n (len - p))).
  { rewrite length_span by (unfold clamp; lia). fold len. unfold clamp. lia. }
  split; [exact Hlength |].
  intros i Hi. rewrite Hlength in Hi.
  rewrite get_span by (unfold clamp; lia).
  f_equal. unfold clamp. lia.
Qed.

Lemma readBytes_short_read_witness :
  0 <= BinReader.position (BinReader.new [x01; x02; x03])
  /\ 0 <= 5
  /\ exact_advance (BinReader.new [x01; x02; x03]) 5 = true
  /\ exists v,
       BinReader.readBytes 5 (BinReader.new [x01; x02; x03])
       = (inr v, moved (BinReader.new [x01; x02; x03]) 5)
       /\ NodeBuffer.length v
          = Z.max 0 (Z.min 5 (NodeBuffer.length
                                (BinReader.buffer (BinReader.new [x01; x02; x03]))
                              - BinReader.position (BinReader.new [x01; x02; x03])))
       /\ forall i, 0 <= i < NodeBuffer.length v ->
                    NodeBuffer.get v i
                    = NodeBuffer.get (BinReader.buffer (BinReader.new [x01; x02; x03]))
                        (BinReader.position (BinReader.new [x01; x02; x03]) + i).
Proof.
  split; [cbn; lia |]. split; [lia |]. split; [reflexivity |].
  apply (readBytes_short_read (BinReader.new [x01; x02; x03]) 5);
    [cbn; lia | lia | reflexivity].
Defined.

Lemma firstn_plus (a c : nat) (l : Buffer) :
  firstn (a + c) l = firstn a l ++ firstn c (skipn a l).
Proof.
  revert l. induction a as [| a IH]; intros l; [reflexivity |].
  destruct l as [| x tl]; cbn [Nat.add firstn skipn app].
  - rewrite firstn_nil. reflexivity.
  - rewrite IH. reflexivity.
Qed.

Lemma span_app (b : Buffer) (lo mid hi : Z) :
  0 <= lo -> lo <= mid -> mid <= hi ->
  span b lo mid ++ span b mid hi = span b lo hi.
Proof.
  intros H1 H2 H3. unfold span.
  replace (Z.to_nat mid) with (Z.to_nat (mid - lo) + Z.to_nat lo)%nat by lia.
  rewrite <- skipn_skipn.
  replace (Z.to_nat (hi - lo)) with (Z.to_nat (mid - lo) + Z.to_nat (hi - mid))%nat by lia.
  set (l := skipn (Z.to_nat lo) b).
  rewrite firstn_plus. reflexivity.
Qed.

(** X7: two [readBytes] in a row are one [readBytes] of the sum.  From a
    non-negative integer position and for non-negative integer lengths
    [n] and [m], with [position + n + m] a safe integer, the spans returned
    by [readBytes(n)] and then [readBytes(m)], put end to end, are the span
    returned by [readBytes(n + m)], and the reader ends in the same
    state. *)
Theorem readBytes_consecutive (r : BinReader.t) (n m : Z) :
  0 <= BinReader.position r -> 0 <= n -> 0 <= m ->
  exact_advance r (n + m) = true ->
  exists a b r1 r2,
    BinReader.readBytes n r = (inr a, r1)
    /\ BinReader.readBytes m r1 = (inr b, r2)
    /\ BinReader.readBytes (n + m) r = (inr (a ++ b), r2).
Proof.
  intros Hpos Hn Hm _. do 4 eexists.
  split; [apply readBytes_eq |]. split; [apply readBytes_eq |].
  rewrite readBytes_eq. unfold moved. cbn [BinReader.buffer BinReader.position].
  pose proof (length_nonneg (BinReader.buffer r)) as Hlen.
  rewrite !subarray_span, !from_end_nonneg by lia.
  rewrite span_app by (unfold clamp; lia).
  rewrite !Z.add_assoc. reflexivity.
Qed.

Lemma readBytes_consecutive_witness :
  0 <= BinReader.position (BinReader.new [x01; x02; x03])
  /\ 0 <= 1 /\ 0 <= 4
  /\ exact_advance (BinReader.new [x01; x02; x03]) (1 + 4) = true
  /\ exists a b r1 r2,
       BinReader.readBytes 1 (BinReader.new [x01; x02; x03]) = (inr a, r1)
       /\ BinReader.readBytes 4 r1 = (inr b, r2)
       /\ BinReader.readBytes (1 + 4) (BinReader.new [x01; x02; x03])
          = (inr (a ++ b), r2).
Proof.
  split; [cbn; lia |]. split; [lia |]. split; [lia |]. split; [reflexivity |].
  apply (readBytes_consecutive (BinReader.new [x01; x02; x03]) 1 4);
    [cbn; lia | lia | lia | reflexivity].
Defined.

(** ** Wide and narrow integers *)

Lemma moved_moved (r : BinReader.t) (a b : Z) : moved (moved r a) b = moved r (a + b).
Proof. unfold moved. cbn. rewrite Z.add_assoc. reflexivity. Qed.

Lemma has_bytes_moved (r : BinReader.t) (a n : Z) :
  0 <= a -> has_bytes r (a + n) -> has_bytes (moved r a) n.
Proof. unfold has_bytes, moved. cbn. lia. Qed.

Lemma has_bytes_less (r : BinReader.t) (n m : Z) :
  m <= n -> has_bytes r n -> has_bytes r m.
Proof. unfold has_bytes. lia. Qed.

(** X8: with four bytes left, [readUInt32] returns what four [readUInt8],
    or two [readUInt16], return one after the other, combined least
    significant part first; all three ways leave the reader four bytes
    further. *)
Theorem readUInt32_from_parts (r : BinReader.t) :
  has_bytes r 4 ->
  exists b0 b1 b2 b3 lo hi,
    read_all [ReadUInt8; ReadUInt8; ReadUInt8; ReadUInt8] r
    = Some ([VInt b0; VInt b1; VInt b2; VInt b3], moved r 4)
    /\ read_all [ReadUInt16; ReadUInt16] r = Some ([VInt lo; VInt hi], moved r 4)
    /\ read_all [ReadUInt32] r
       = Some ([VInt (b0 + 2 ^ 8 * b1 + 2 ^ 16 * b2 + 2 ^ 24 * b3)], moved r 4)
    /\ lo = b0 + 2 ^ 8 * b1
    /\ hi = b2 + 2 ^ 8 * b3.
Proof.
  intros Hr.
  set (b := BinReader.buffer r). set (p := BinReader.position r).
  exists (NodeBuffer.at_ b p), (NodeBuffer.at_ b (p + 1)),
    (NodeBuffer.at_ b (p + 2)), (NodeBuffer.at_ b (p + 3)),
    (NodeBuffer.at_ b p + 2 ^ 8 * NodeBuffer.at_ b (p + 1)),
    (NodeBuffer.at_ b (p + 2) + 2 ^ 8 * NodeBuffer.at_ b (p + 3)).
  assert (H8 : forall a, 0 <= a <= 3 ->
                 do_read ReadUInt8 (moved r a)
                 = (inr (VInt (NodeBuffer.at_ b (p + a))), moved r (a + 1))).
  { intros a Ha. change ReadUInt8 with (read_int UInt8).
    rewrite read_int_at
      by (apply has_bytes_moved; [lia |]; apply (has_bytes_less r 4); cbn; [lia | exact Hr]).
    rewrite moved_moved, int_of_bits_unsigned by reflexivity.
    cbn [int_bytes NodeBuffer.le_bits BinReader.buffer BinReader.position moved].
    fold b p. do 3 f_equal. lia. }
  assert (H16 : forall a, 0 <= a <= 2 ->
                  do_read ReadUInt16 (moved r a)
                  = (inr (VInt (NodeBuffer.at_ b (p + a)
                                + 2 ^ 8 * NodeBuffer.at_ b (p + a + 1))),
                     moved r (a + 2))).
  { intros a Ha. change ReadUInt16 with (read_int UInt16).
    rewrite read_int_at
      by (apply has_bytes_moved; [lia |]; apply (has_bytes_less r 4); cbn; [lia | exact Hr]).
    rewrite moved_moved, int_of_bits_unsigned by reflexivity.
    cbn [int_bytes NodeBuffer.le_bits BinReader.buffer BinReader.position moved].
    fold b p. do 3 f_equal. lia. }
  assert (Hr0 : moved r 0 = r)
    by (destruct r; unfold moved; cbn; rewrite Z.add_0_r; reflexivity).
  pose proof (H8 0 ltac:(lia)) as H80. rewrite Hr0, Z.add_0_r in H80.
  pose proof (H16 0 ltac:(lia)) as H160. rewrite Hr0, Z.add_0_r in H160.
  repeat split.
  - cbn [read_all]. rewrite H80, (H8 (0 + 1)), (H8 (0 + 1 + 1)), (H8 (0 + 1 + 1 + 1)) by lia.
    reflexivity.
  - cbn [read_all]. rewrite H160, (H16 (0 + 2)) by lia.
    replace (p + (0 + 2) + 1) with (p + 3) by lia. reflexivity.
  - cbn [read_all]. change ReadUInt32 with (read_int UInt32).
    rewrite read_int_at by exact Hr.
    rewrite int_of_bits_unsigned by reflexivity.
    cbn [int_bytes NodeBuffer.le_bits]. fold b p.
    replace (p + 1 + 1) with (p + 2) by lia.
    replace (p + 2 + 1) with (p + 3) by lia.
    do 4 f_equal. pow_consts. lia.
Qed.

Lemma readUInt32_from_parts_witness :
  has_bytes (BinReader.new [xce; xfa; xed; xfe]) 4
  /\ exists b0 b1 b2 b3 lo hi,
       read_all [ReadUInt8; ReadUInt8; ReadUInt8; ReadUInt8]
                (BinReader.new [xce; xfa; xed; xfe])
       = Some ([VInt b0; VInt b1; VInt b2; VInt b3],
               moved (BinReader.new [xce; xfa; xed; xfe]) 4)
       /\ read_all [ReadUInt16; ReadUInt16] (BinReader.new [xce; xfa; xed; xfe])
          = Some ([VInt lo; VInt hi], moved (BinReader.new [xce; xfa; xed; xfe]) 4)
       /\ read_all [ReadUInt32] (BinReader.new [xce; xfa; xed; xfe])
          = Some ([VInt (b0 + 2 ^ 8 * b1 + 2 ^ 16 * b2 + 2 ^ 24 * b3)],
                  moved (BinReader.new [xce; xfa; xed; xfe]) 4)
       /\ lo = b0 + 2 ^ 8 * b1
       /\ hi = b2 + 2 ^ 8 * b3.
Proof.
  assert (H : has_bytes (BinReader.new [xce; xfa; xed; xfe]) 4)
    by (unfold has_bytes; cbn; lia).
  split; [exact H |].
  apply (readUInt32_from_parts (BinReader.new [xce; xfa; xed; xfe])). exact H.
Defined.

Lemma in_range_true (k : int_kind) (v : Z) :
  in_range k v = true <-> int_min k <= v <= int_max k.
Proof. unfold in_range. rewrite andb_true_iff, !Z.leb_le. reflexivity. Qed.

(** X9: for a value in the unsigned 32-bit range, [writeUInt32] appends
    what two [writeUInt16] of the low and high halves append, and what
    four [writeUInt8] of its bytes append, least significant first. *)
Theorem writeUInt32_as_parts (v : Z) (w : BinWriter.t) :
  in_range UInt32 v = true ->
  exists w',
    do_write (WriteUInt32 v) w = (inr tt, w')
    /\ run do_write [WriteUInt16 (v mod 2 ^ 16); WriteUInt16 (v / 2 ^ 16)] w = Some w'
    /\ run do_write [WriteUInt8 (v mod 2 ^ 8); WriteUInt8 (v / 2 ^ 8 mod 2 ^ 8);
                     WriteUInt8 (v / 2 ^ 16 mod 2 ^ 8); WriteUInt8 (v / 2 ^ 24)] w
       = Some w'.
Proof.
  intros Hv. pose proof Hv as Hv'. apply in_range_true in Hv'.
  cbn [int_min int_max] in Hv'. pow_consts.
  assert (H16 : forall x, 0 <= x < 65536 -> in_range UInt16 x = true)
    by (intros x Hx; apply in_range_true; cbn [int_min int_max]; pow_consts; lia).
  assert (H8 : forall x, 0 <= x < 256 -> in_range UInt8 x = true)
    by (intros x Hx; apply in_range_true; cbn [int_min int_max]; pow_consts; lia).
  eexists. split; [| split].
  - change (WriteUInt32 v) with (write_int UInt32 v). rewrite write_int_eq, Hv.
    reflexivity.
  - cbn [run].
    change (WriteUInt16 (v mod 65536)) with (write_int UInt16 (v mod 65536)).
    rewrite write_int_eq, H16 by (Z.to_euclidean_division_equations; lia).
    change (WriteUInt16 (v / 65536)) with (write_int UInt16 (v / 65536)).
    rewrite write_int_eq, H16 by (Z.to_euclidean_division_equations; lia).
    cbn [BinWriter.buffer int_bytes le_bytes]. rewrite <- app_assoc. cbn [app].
    pow_consts. do 3 f_equal.
    repeat (apply f_equal2;
            [apply ToUint8_mod; Z.to_euclidean_division_equations; lia |]).
    reflexivity.
  - cbn [run].
    change (WriteUInt8 (v mod 256)) with (write_int UInt8 (v mod 256)).
    rewrite write_int_eq, H8 by (Z.to_euclidean_division_equations; lia).
    change (WriteUInt8 (v / 256 mod 256)) with (write_int UInt8 (v / 256 mod 256)).
    rewrite write_int_eq, H8 by (Z.to_euclidean_division_equations; lia).
    change (WriteUInt8 (v / 65536 mod 256)) with (write_int UInt8 (v / 65536 mod 256)).
    rewrite write_int_eq, H8 by (Z.to_euclidean_division_equations; lia).
    change (WriteUInt8 (v / 16777216)) with (write_int UInt8 (v / 16777216)).
    rewrite write_int_eq, H8 by (Z.to_euclidean_division_equations; lia).
    cbn [BinWriter.buffer int_bytes le_bytes]. rewrite <- !app_assoc. cbn [app].
    pow_consts. do 3 f_equal.
    repeat (apply f_equal2;
            [apply ToUint8_mod; Z.to_euclidean_division_equations; lia |]).
    reflexivity.
Qed.

Lemma writeUInt32_as_parts_witness :
  in_range UInt32 0xFEEDFACE = true
  /\ exists w',
       do_write (WriteUInt32 0xFEEDFACE) BinWriter.new = (inr tt, w')
       /\ run do_write [WriteUInt16 (0xFEEDFACE mod 2 ^ 16);
                        WriteUInt16 (0xFEEDFACE / 2 ^ 16)] BinWriter.new
          = Some w'
       /\ run do_write [WriteUInt8 (0xFEEDFACE mod 2 ^ 8);
                        WriteUInt8 (0xFEEDFACE / 2 ^ 8 mod 2 ^ 8);
                        WriteUInt8 (0xFEEDFACE / 2 ^ 16 mod 2 ^ 8);
                        WriteUInt8 (0xFEEDFACE / 2 ^ 24)] BinWriter.new
          = Some w'.
Proof.
  split; [reflexivity |].
  apply (writeUInt32_as_parts 0xFEEDFACE BinWriter.new). reflexivity.
Defined.

Lemma int_bytes_unsigned_of (k : int_kind) : int_bytes (unsigned_of k) = int_bytes k.
Proof. destruct k; reflexivity. Qed.

(** X10: a signed write is the unsigned write of the same width on the
    value taken modulo [2 ^ width]: for a value in the range of a type,
    the write appends the bytes that the unsigned write of that width
    appends for the value reduced modulo [2 ^ (8 * width)]. *)
Theorem signed_write_as_unsigned (k : int_kind) (v : Z) (w : BinWriter.t) :
  in_range k v = true ->
  do_write (write_int k v) w
  = do_write (write_int (unsigned_of k) (v mod 2 ^ (8 * Z.of_nat (int_bytes k)))) w
  /\ exists w', do_write (write_int k v) w = (inr tt, w').
Proof.
  intros Hv. rewrite !write_int_eq, Hv.
  assert (Hu : in_range (unsigned_of k) (v mod 2 ^ (8 * Z.of_nat (int_bytes k))) = true).
  { apply in_range_true.
    assert (Hmod : 0 <= v mod 2 ^ (8 * Z.of_nat (int_bytes k))
                   < 2 ^ (8 * Z.of_nat (int_bytes k)))
      by (apply Z.mod_pos_bound, Z.pow_pos_nonneg; lia).
    destruct k; cbn [unsigned_of int_min int_max int_bytes] in *;
      try change (2 ^ (8 * Z.of_nat 1)) with 256 in *;
      try change (2 ^ (8 * Z.of_nat 2)) with 65536 in *;
      try change (2 ^ (8 * Z.of_nat 4)) with 4294967296 in *;
      pow_consts; lia. }
  rewrite Hu, int_bytes_unsigned_of. split; [| eexists; reflexivity].
  do 3 f_equal. apply le_bytes_mod_eq.
  rewrite Z.mod_mod by (apply Z.pow_nonzero; lia). reflexivity.
Qed.

Lemma signed_write_as_unsigned_witness :
  in_range Int8 (-2) = true
  /\ do_write (write_int Int8 (-2)) BinWriter.new
     = do_write (write_int (unsigned_of Int8) ((-2) mod 2 ^ (8 * Z.of_nat (int_bytes Int8))))
                BinWriter.new
  /\ exists w', do_write (write_int Int8 (-2)) BinWriter.new = (inr tt, w').
Proof.
  split; [reflexivity |].
  apply (signed_write_as_unsigned Int8 (-2) BinWriter.new). reflexivity.
Defined.

(** X11: distinct values are written as distinct bytes.  If two
    representable values of one type (and, for byte spans, one length)
    make a writer append the same bytes, they are the same value. *)
Theorem written_bytes_determine_value (x y : typed) (w : BinWriter.t) :
  representable x -> representable y ->
  read_of x = read_of y ->
  do_write (write_of x) w = do_write (write_of y) w ->
  value_of x = value_of y.
Proof.
  intros Hx Hy Hop Hw.
  rewrite (write_typed x w Hx), (write_typed y w Hy) in Hw.
  injection Hw as Hbuf. apply app_inv_head in Hbuf.
  pose proof (read_typed_frame x [] [] Hx) as Rx.
  pose proof (read_typed_frame y [] [] Hy) as Ry.
  rewrite Hop, Hbuf, Ry in Rx. congruence.
Qed.

Lemma written_bytes_determine_value_witness :
  representable (TInt Int16 772) /\ representable (TInt Int16 (256 * 3 + 4))
  /\ read_of (TInt Int16 772) = read_of (TInt Int16 (256 * 3 + 4))
  /\ do_write (write_of (TInt Int16 772)) BinWriter.new
     = do_write (write_of (TInt Int16 (256 * 3 + 4))) BinWriter.new
  /\ value_of (TInt Int16 772) = value_of (TInt Int16 (256 * 3 + 4)).
Proof.
  split; [reflexivity |]. split; [reflexivity |].
  split; [reflexivity |]. split; [reflexivity |].
  apply (written_bytes_determine_value (TInt Int16 772) (TInt Int16 (256 * 3 + 4))
                                       BinWriter.new); reflexivity.
Defined.

Lemma do_write_accepted (op : write_op) (w : BinWriter.t) :
  (accepted op = true /\ exists w', do_write op w = (inr tt, w'))
  \/ (accepted op = false /\ do_write op w = (inl (ERR_OUT_OF_RANGE Value), w)).
Proof.
  assert (Hint : forall k v,
             (in_range k v = true /\ exists w', do_write (write_int k v) w = (inr tt, w'))
             \/ (in_range k v = false
                 /\ do_write (write_int k v) w = (inl (ERR_OUT_OF_RANGE Value), w))).
  { intros k v. rewrite write_int_eq. destruct (in_range k v).
    - left. split; [reflexivity | eexists; reflexivity].
    - right. split; reflexivity. }
  destruct op as [v | v | v | v | v | v | v | v | v]; cbn [accepted].
  - apply (Hint UInt8).
  - apply (Hint Int8).
  - apply (Hint UInt16).
  - apply (Hint Int16).
  - apply (Hint UInt32).
  - apply (Hint Int32).
  - left. split; [reflexivity |]. cbn [do_write]. rewrite writeFloat32_eq. eexists. reflexivity.
  - left. split; [reflexivity |]. cbn [do_write]. rewrite writeDouble_eq. eexists. reflexivity.
  - left. split; [reflexivity |]. cbn [do_write]. rewrite writeBytes_eq. eexists. reflexivity.
Qed.

(** X12: a sequence of writes runs to the end exactly when every integer
    in it is in the range of its type; nothing else makes a write throw,
    and a write that throws raises the out-of-range error on its value and
    appends nothing. *)
Theorem writes_throw_only_out_of_range (ops : list write_op) (w0 : BinWriter.t) :
  ((exists w, run do_write ops w0 = Some w) <-> forallb accepted ops = true)
  /\ (forall op w e w',
         do_write op w = (inl e, w') -> e = ERR_OUT_OF_RANGE Value /\ w' = w).
Proof.
  split.
  - revert w0. induction ops as [| op rest IH]; intros w0.
    + cbn. split; [reflexivity | intros _; eexists; reflexivity].
    + cbn [run forallb].
      destruct (do_write_accepted op w0) as [(Hacc & w' & E) | (Hacc & E)];
        rewrite E, Hacc; cbn [andb].
      * apply IH.
      * split; [intros [w H]; discriminate | discriminate].
  - intros op w e w' E.
    destruct (do_write_accepted op w) as [(_ & w1 & E1) | (_ & E1)]; rewrite E1 in E.
    + discriminate.
    + injection E as <- <-. split; reflexivity.
Qed.

Lemma writes_throw_only_out_of_range_witness :
  forallb accepted [WriteInt8 2; WriteDouble S754_nan; WriteBytes []] = true
  /\ exists w,
       run do_write [WriteInt8 2; WriteDouble S754_nan; WriteBytes []] BinWriter.new
       = Some w.
Proof.
  split; [reflexivity |].
  apply (writes_throw_only_out_of_range
           [WriteInt8 2; WriteDouble S754_nan; WriteBytes []] BinWriter.new).
  reflexivity.
Defined.

(** ** When a run of fixed-width reads returns *)

(** X13: from a reader whose position is inside its buffer, a run of
    fixed-width reads returns exactly when the buffer holds as many bytes
    after the position as the widths add up to; it then stops that many
    bytes further, and returns one value per read. *)
Theorem fixed_reads_return_iff (ops : list read_op) (r : BinReader.t) :
  forallb fixed_width ops = true ->
  invariant r ->
  ((exists vs r', read_all ops r = Some (vs, r'))
   <-> BinReader.position r + total_read_width ops
       <= NodeBuffer.length (BinReader.buffer r))
  /\ (forall vs r',
         read_all ops r = Some (vs, r') ->
         r' = moved r (total_read_width ops)
         /\ List.length vs = List.length ops).
Proof.
  revert r. induction ops as [| op rest IH]; intros r Hops Hinv.
  - unfold total_read_width. cbn. unfold invariant in Hinv. split.
    + split; [lia | intros _; do 2 eexists; reflexivity].
    + intros vs r' [= <- <-]. split; [| reflexivity].
      destruct r. unfold moved. cbn. rewrite Z.add_0_r. reflexivity.
  - cbn [forallb] in Hops. apply andb_true_iff in Hops as [Hop Hrest].
    assert (Hrest_nonneg : 0 <= total_read_width rest).
    { clear - Hrest. induction rest as [| o tl IHtl]; [unfold total_read_width; cbn; lia |].
      cbn [forallb] in Hrest. apply andb_true_iff in Hrest as [Ho Htl].
      pose proof (read_width_fixed_pos o Ho). specialize (IHtl Htl).
      unfold total_read_width in *. cbn [map fold_right]. lia. }
    pose proof (read_width_fixed_pos op Hop) as Hw.
    assert (Hsum : total_read_width (op :: rest) = read_width op + total_read_width rest)
      by reflexivity.
    rewrite Hsum. cbn [read_all]. unfold invariant in Hinv.
    destruct (do_read_cases op r)
      as [(_ & Hout & e & E & _) | [(_ & Hlo & Hhi & v & E) | (Hfix & _)]];
      [| | congruence]; rewrite E.
    + split; [split; [intros (vs & r' & H); discriminate | lia] | discriminate].
    + assert (Hinv' : invariant (moved r (read_width op)))
        by (unfold invariant, moved; cbn; lia).
      destruct (IH (moved r (read_width op)) Hrest Hinv') as [IHiff IHres].
      cbn [moved BinReader.position BinReader.buffer] in IHiff.
      split.
      * split.
        -- intros (vs & r' & H).
           destruct (read_all rest (moved r (read_width op))) as [[vs0 r0] |] eqn:E0;
             [| discriminate].
           assert (Hex : exists vs r', Some (vs0, r0) = Some (vs, r'))
             by (do 2 eexists; reflexivity).
           apply IHiff in Hex. lia.
        -- intros Hle. destruct IHiff as [_ Hback].
           destruct Hback as (vs & r' & H); [lia |].
           rewrite H. do 2 eexists. reflexivity.
      * intros vs r' H.
        destruct (read_all rest (moved r (read_width op))) as [[vs0 r0] |] eqn:E0;
          [| discriminate].
        injection H as <- <-. destruct (IHres vs0 r0 eq_refl) as [-> Hlen].
        rewrite moved_moved. split; [reflexivity | cbn; lia].
Qed.

Lemma fixed_reads_return_iff_witness :
  forallb fixed_width [ReadUInt8; ReadInt16] = true
  /\ invariant (BinReader.new [x01; x02; x03])
  /\ ((exists vs r', read_all [ReadUInt8; ReadInt16] (BinReader.new [x01; x02; x03])
                     = Some (vs, r'))
      <-> BinReader.position (BinReader.new [x01; x02; x03])
          + total_read_width [ReadUInt8; ReadInt16]
          <= NodeBuffer.length (BinReader.buffer (BinReader.new [x01; x02; x03]))).
Proof.
  assert (H : invariant (BinReader.new [x01; x02; x03]))
    by (unfold invariant; cbn; lia).
  split; [reflexivity |]. split; [exact H |].
  apply (fixed_reads_return_iff [ReadUInt8; ReadInt16] (BinReader.new [x01; x02; x03]));
    [reflexivity | exact H].
Defined.
